(** * pokerparser: the record model, the personal-data filter and the CSV store

    A shallow embedding of [poker_parser.go].  Go strings and byte slices are
    byte sequences and are both modelled by [string] (a list of 8-bit
    characters).  Slices are lists.  A Go [error] value is the text of its
    message, [nil] is [None].  A run-time panic is an explicit outcome of the
    computation ([Panic]).  Printing to standard output and the file system
    are threaded through a [World].

    The Go standard library is not part of the repository.  What the program
    needs of [strings], [bufio], [encoding/csv] (writer side) and
    [io/ioutil] is modelled below from the library's documented behaviour;
    the CSV reader and [time.Parse] are taken as parameters. *)

From stdpp Require Import base strings list gmap pretty.
From Stdlib Require Import ZArith Lia.

(** ** Byte-string helpers *)

Fixpoint str_take (n : nat) (s : string) : string :=
  match n, s with
  | S n', String c s' => String c (str_take n' s')
  | _, _ => ""
  end.

Fixpoint str_drop (n : nat) (s : string) : string :=
  match n, s with
  | S n', String _ s' => str_drop n' s'
  | _, _ => s
  end.

(** ** Package [strings] *)

Module strings.

(** [HasPrefix(s, prefix)]: [len(s) >= len(prefix) && s[:len(prefix)] == prefix]. *)
Fixpoint HasPrefix (s prefix : string) {struct prefix} : bool :=
  match prefix with
  | "" => true
  | String p prefix' =>
      match s with
      | "" => false
      | String c s' => if Ascii.eqb c p then HasPrefix s' prefix' else false
      end
  end.

(** [Index(s, substr)]: the byte index of the first instance of [substr]
    in [s], or [-1]. *)
Fixpoint Index (s substr : string) : Z :=
  if HasPrefix s substr then 0%Z
  else match s with
       | "" => (-1)%Z
       | String _ s' =>
           let i := Index s' substr in
           if (i <? 0)%Z then (-1)%Z else (1 + i)%Z
       end.

(** [Contains(s, substr)] is [Index(s, substr) >= 0]. *)
Definition Contains (s substr : string) : bool := (0 <=? Index s substr)%Z.

(** The scanning loop of [Split] for a non-empty separator: [cur] is the
    segment collected since the last separator and [skip] counts the bytes
    of a separator just matched that are still to be passed over. *)
Fixpoint split_scan (sep s : string) (skip : nat) (cur : string) : list string :=
  match s with
  | "" => [cur]
  | String c s' =>
      match skip with
      | S k => split_scan sep s' k cur
      | O =>
          if HasPrefix s sep
          then cur :: split_scan sep s' (String.length sep - 1) ""
          else split_scan sep s' 0 (cur +:+ String c "")
      end
  end.

Fixpoint explode (s : string) : list string :=
  match s with
  | "" => []
  | String c s' => String c "" :: explode s'
  end.

(** [Split(s, sep)]: the substrings between the left-most, non-overlapping
    occurrences of [sep]; [[s]] when [sep] does not occur.  With an empty
    separator Go splits after every UTF-8 sequence; the model splits after
    every byte, which agrees on ASCII text (the program never passes an
    empty separator). *)
Definition Split (s sep : string) : list string :=
  match sep with
  | "" => explode s
  | _ => split_scan sep s 0 ""
  end.

Fixpoint inCutset (c : Ascii.ascii) (cutset : string) : bool :=
  match cutset with
  | "" => false
  | String d cutset' => if Ascii.eqb c d then true else inCutset c cutset'
  end.

Fixpoint TrimLeft (s cutset : string) : string :=
  match s with
  | "" => ""
  | String c s' => if inCutset c cutset then TrimLeft s' cutset else s
  end.

Fixpoint TrimRight (s cutset : string) : string :=
  match s with
  | "" => ""
  | String c s' =>
      match TrimRight s' cutset with
      | "" => if inCutset c cutset then "" else String c ""
      | t => String c t
      end
  end.

(** [Trim(s, cutset)]: [s] without the leading and trailing characters
    contained in [cutset] (byte-wise, exact for an ASCII cutset). *)
Definition Trim (s cutset : string) : string :=
  TrimRight (TrimLeft s cutset) cutset.

(** [Join(elems, sep)]. *)
Fixpoint Join (elems : list string) (sep : string) : string :=
  match elems with
  | [] => ""
  | [e] => e
  | e :: elems' => e +:+ sep +:+ Join elems' sep
  end.

End strings.

(** The double-quote character, as a one-byte string and as a byte. *)
Definition dquote_char : Ascii.ascii := Ascii.ascii_of_nat 34.
Definition dquote : string := String dquote_char "".
Definition cr_char : Ascii.ascii := Ascii.ascii_of_nat 13.
Definition lf_char : Ascii.ascii := Ascii.ascii_of_nat 10.
Definition comma_char : Ascii.ascii := Ascii.ascii_of_nat 44.

(** ** Outcomes, the world and the effect monad *)

Definition error : Type := string.

Inductive result (A : Type) : Type :=
| Done (a : A)
| Panic (msg : string).
Arguments Done {A} a.
Arguments Panic {A} msg.

(** The part of the environment the program touches: the regular files it
    can read (path to content), the paths that cannot be opened for writing,
    and the lines printed on standard output, oldest first. *)
Record World : Type := mkWorld {
  files : gmap string string;
  denied : gset string;
  stdout : list string;
}.

Definition M (A : Type) : Type := World -> result A * World.

Definition ret {A} (a : A) : M A := fun w => (Done a, w).

Definition bind {A B} (m : M A) (k : A -> M B) : M B :=
  fun w =>
    match m w with
    | (Done a, w') => k a w'
    | (Panic msg, w') => (Panic msg, w')
    end.

Definition panic {A} (msg : string) : M A := fun w => (Panic msg, w).

Notation "x <- m ;; k" := (bind m (fun x => k))
  (at level 20, m at level 99, k at level 200, only parsing).
Notation "' pat <- m ;; k" := (bind m (fun x => match x with pat => k end))
  (at level 20, pat pattern, m at level 99, k at level 200, only parsing).

(** A computation without effects, run inside [M]. *)
Definition lift {A} (r : result A) : M A := fun w => (r, w).

(** The world after one more line on standard output. *)
Definition log_line (s : string) (w : World) : World :=
  {| files := files w; denied := denied w; stdout := stdout w ++ [s] |}.

Definition log_lines (lines : list string) (w : World) : World :=
  fold_left (fun w s => log_line s w) lines w.

(** The world after [filename] was created or truncated and given [data]. *)
Definition with_file (filename data : string) (w : World) : World :=
  {| files := <[filename := data]> (files w); denied := denied w; stdout := stdout w |}.

(** [Log(s)] prints [s] and a line break. *)
Definition Log (s : string) : M unit :=
  fun w => (Done tt, log_line s w).

(** [fmt.Sprintf] with the verb for a decimal integer. *)
Definition Sprintf_d (n : nat) : string := pretty n.

(** [fmt.Sprintf] with the string verb applied to a slice of strings:
    the elements separated by spaces, in square brackets. *)
Definition Sprintf_s_slice (l : list string) : string :=
  "[" +:+ strings.Join l " " +:+ "]".

(** ** Package [io/ioutil] *)

Module ioutil.

(** [ReadFile(filename)]: the content of the file, or an error. *)
Definition ReadFile (filename : string) : M (string * option error) :=
  fun w =>
    match files w !! filename with
    | Some data => (Done (data, None), w)
    | None =>
        (Done ("", Some ("open " +:+ filename +:+ ": no such file or directory")), w)
    end.

(** [WriteFile(filename, data, perm)]: creates the file or truncates it,
    then writes [data]; [perm] is only used when the file is created and
    is not tracked. *)
Definition WriteFile (filename data : string) (perm : nat) : M (option error) :=
  fun w =>
    if decide (filename ∈ denied w)
    then (Done (Some ("open " +:+ filename +:+ ": permission denied")), w)
    else (Done None, with_file filename data w).

End ioutil.

(** ** Package [bufio]: the buffered writer

    A writer over a [bytes.Buffer].  [wr] is the content of the underlying
    buffer (a shared object in Go: the program reads it back through its own
    reference), [buf] the bytes accepted but not yet forwarded.  Writing to a
    [bytes.Buffer] never fails, so the writer's sticky error is left out. *)

Module bufio.

Definition defaultBufSize : nat := 4096.

Record Writer : Type := mkWriter { wr : string; buf : string }.

Definition NewWriter (underlying : string) : Writer :=
  {| wr := underlying; buf := "" |}.

Definition Buffered (b : Writer) : nat := String.length (buf b).
Definition Available (b : Writer) : nat := defaultBufSize - Buffered b.

(** [Flush]: forward the buffered bytes to the underlying writer. *)
Definition Flush (b : Writer) : Writer :=
  {| wr := wr b +:+ buf b; buf := "" |}.

(** [WriteByte(c)]. *)
Definition WriteByte (b : Writer) (c : Ascii.ascii) : Writer :=
  let b := if Available b =? 0 then Flush b else b in
  {| wr := wr b; buf := buf b +:+ String c "" |}.

(** The loop of [WriteString]: while the string does not fit, copy what
    fits, flush, and go on with the rest. *)
Fixpoint WriteString_loop (fuel : nat) (b : Writer) (s : string) : Writer :=
  match fuel with
  | O => b
  | S fuel' =>
      if Available b <? String.length s then
        let n := Available b in
        WriteString_loop fuel'
          (Flush {| wr := wr b; buf := buf b +:+ str_take n s |})
          (str_drop n s)
      else {| wr := wr b; buf := buf b +:+ s |}
  end.

(** [WriteString(s)].  One round may copy nothing (a full buffer), every
    later one copies [defaultBufSize] bytes, so [2 + len(s)] rounds are
    enough (lemma [WriteString_loop_fuel]).  Later releases of the library
    hand a string that exceeds an empty buffer directly to the underlying
    writer; strings that fit in the buffer are treated as here. *)
Definition WriteString (b : Writer) (s : string) : Writer :=
  WriteString_loop (2 + String.length s) b s.

End bufio.

(** ** Package [encoding/csv]: the writer *)

Module csv.

Record Writer : Type := mkWriter {
  Comma : Ascii.ascii;
  UseCRLF : bool;
  w : bufio.Writer;
}.

(** [NewWriter(w)]: comma-separated, lines ended by a line feed.  The
    delimiter, a rune in Go, is one byte here, so only ASCII delimiters pass
    [validDelim]. *)
Definition NewWriter (underlying : string) : Writer :=
  {| Comma := comma_char; UseCRLF := false; w := bufio.NewWriter underlying |}.

Definition validDelim (r : Ascii.ascii) : bool :=
  negb (Ascii.eqb r (Ascii.ascii_of_nat 0) || Ascii.eqb r dquote_char
        || Ascii.eqb r cr_char || Ascii.eqb r lf_char)
  && (Ascii.nat_of_ascii r <? 128).

Definition bytes_to_string (l : list nat) : string :=
  fold_right (fun n s => String (Ascii.ascii_of_nat n) s) "" l.

(** The UTF-8 encodings of the code points with the White_Space property:
    U+0009..U+000D, U+0020, U+0085, U+00A0, U+1680, U+2000..U+200A, U+2028,
    U+2029, U+202F, U+205F, U+3000. *)
Definition space_encodings : list string :=
  map bytes_to_string
    [ [9]; [10]; [11]; [12]; [13]; [32]; [194; 133]; [194; 160];
      [225; 154; 128];
      [226; 128; 128]; [226; 128; 129]; [226; 128; 130]; [226; 128; 131];
      [226; 128; 132]; [226; 128; 133]; [226; 128; 134]; [226; 128; 135];
      [226; 128; 136]; [226; 128; 137]; [226; 128; 138];
      [226; 128; 168]; [226; 128; 169]; [226; 128; 175];
      [226; 129; 159]; [227; 128; 128] ].

(** [unicode.IsSpace] of the first rune of [field]. *)
Definition firstRuneIsSpace (field : string) : bool :=
  existsb (strings.HasPrefix field) space_encodings.

Definition isSpecial (c : Ascii.ascii) : bool :=
  Ascii.eqb c dquote_char || Ascii.eqb c cr_char || Ascii.eqb c lf_char.

Fixpoint containsByte (p : Ascii.ascii -> bool) (s : string) : bool :=
  match s with
  | "" => false
  | String c s' => p c || containsByte p s'
  end.

(** [fieldNeedsQuotes(field)]. *)
Definition fieldNeedsQuotes (wtr : Writer) (field : string) : bool :=
  if String.eqb field "" then false
  else if String.eqb field "\."
          || containsByte (Ascii.eqb (Comma wtr)) field
          || containsByte isSpecial field
       then true
       else firstRuneIsSpace field.

(** The body of a quoted field: the stretches without special characters
    are written verbatim ([chunk] collects the current stretch), a quote
    is doubled, a carriage return is kept unless lines end in CR LF, a
    line feed becomes the line ending. *)
Fixpoint writeQuoted (useCRLF : bool) (b : bufio.Writer) (field chunk : string)
  : bufio.Writer :=
  match field with
  | "" => bufio.WriteString b chunk
  | String c field' =>
      if isSpecial c then
        let b := bufio.WriteString b chunk in
        let b :=
          if Ascii.eqb c dquote_char then bufio.WriteString b (dquote +:+ dquote)
          else if Ascii.eqb c cr_char then
                 (if useCRLF then b else bufio.WriteByte b cr_char)
               else
                 (if useCRLF
                  then bufio.WriteString b (String cr_char (String lf_char ""))
                  else bufio.WriteByte b lf_char) in
        writeQuoted useCRLF b field' ""
      else writeQuoted useCRLF b field' (chunk +:+ String c "")
  end.

Definition writeField (wtr : Writer) (b : bufio.Writer) (field : string)
  : bufio.Writer :=
  if fieldNeedsQuotes wtr field then
    let b := bufio.WriteByte b dquote_char in
    let b := writeQuoted (UseCRLF wtr) b field "" in
    bufio.WriteByte b dquote_char
  else bufio.WriteString b field.

(** The loop over the fields; [n] is the index of the first of them. *)
Fixpoint writeFields (wtr : Writer) (b : bufio.Writer) (n : nat)
    (record : list string) : bufio.Writer :=
  match record with
  | [] => b
  | field :: record' =>
      let b := if 0 <? n then bufio.WriteByte b (Comma wtr) else b in
      writeFields wtr (writeField wtr b field) (S n) record'
  end.

(** [Write(record)]: one record, quoted where needed, then the line
    ending.  The writes go to the buffered writer; nothing reaches the
    underlying writer before [Flush] unless the buffer fills up.  An
    invalid delimiter is an error and writes nothing. *)
Definition Write (wtr : Writer) (record : list string) : Writer * option error :=
  if negb (validDelim (Comma wtr)) then (wtr, Some "csv: invalid field or comment delimiter")
  else
    let b := writeFields wtr (w wtr) 0 record in
    let b := if UseCRLF wtr
             then bufio.WriteString b (String cr_char (String lf_char ""))
             else bufio.WriteByte b lf_char in
    ({| Comma := Comma wtr; UseCRLF := UseCRLF wtr; w := b |}, None).

(** [Flush]. *)
Definition Flush (wtr : Writer) : Writer :=
  {| Comma := Comma wtr; UseCRLF := UseCRLF wtr; w := bufio.Flush (w wtr) |}.

End csv.

(** ** Run-time checks of the language *)

(** [l[i]]: panics when [i] is out of range. *)
Definition index {A} (l : list A) (i : nat) : result A :=
  match l !! i with
  | Some x => Done x
  | None =>
      Panic ("runtime error: index out of range [" +:+ pretty i
             +:+ "] with length " +:+ pretty (length l))
  end.

(** [l[low:]]: panics when [low] exceeds the length. *)
Definition slice_from {A} (l : list A) (low : nat) : result (list A) :=
  if low <=? length l then Done (drop low l)
  else Panic ("runtime error: slice bounds out of range [" +:+ pretty low
              +:+ ":" +:+ pretty (length l) +:+ "]").

(** ** The name of the sanitized file *)

(** [GetSanitizedFileName(file)]: the name split at the periods must have
    two parts, otherwise the function panics; the result puts the suffix
    between the two parts. *)
Definition GetSanitizedFileName (file : string) : result string :=
  let tuple := strings.Split file "." in
  if negb (length tuple =? 2) then Panic ("file has multiple periods: " +:+ file)
  else
    match index tuple 0 with
    | Panic msg => Panic msg
    | Done base =>
        match index tuple 1 with
        | Panic msg => Panic msg
        | Done ext => Done (base +:+ "_sanitized." +:+ ext)
        end
    end.

(** ** Library functions taken as parameters

    [time_Parse s] stands for [time.Parse(time.RFC3339, s)] and
    [csv_ReadAll data] for [csv.NewReader(bytes.NewReader(data)).ReadAll()];
    each returns its value together with the error, as in Go. *)
Class Library : Type := {
  Time : Type;
  time_Parse : string -> Time * option error;
  csv_ReadAll : string -> list (list string) * option error;
}.

(** ** Cells *)

(** [Cell] is an interface with one implementation, [stringcell], a string
    type; [stringcell s] is the conversion of the string [s]. *)
Inductive Cell : Type := stringcell (s : string).

Module stringcell.

Definition personalDataKeys : list string := ["Your hand"].

Fixpoint ContainsPersonalData_loop (s : string) (keys : list string) : bool :=
  match keys with
  | [] => false
  | key :: keys' =>
      if strings.Contains s key then true
      else ContainsPersonalData_loop s keys'
  end.

Definition ContainsPersonalData (s : Cell) : bool :=
  match s with
  | stringcell s => ContainsPersonalData_loop s personalDataKeys
  end.

Definition String (s : Cell) : string :=
  match s with stringcell s => s end.

End stringcell.

(** ** Records *)

(** [Record] is an interface with one implementation, a pointer to a
    [genericrecord]; a record is never changed once built, so it is
    modelled by its value. *)
Record genericrecord : Type := mkRecord { cells : list Cell }.

(** [NewRecord(records)]: one cell per string, appended in order. *)
Definition NewRecord (records : list string) : genericrecord :=
  {| cells := fold_left (fun out cell => out ++ [stringcell cell]) records [] |}.

Module genericrecord.

Definition Cells (g : genericrecord) : list Cell := cells g.

Definition Raw (g : genericrecord) : list string :=
  fold_left (fun out cell => out ++ [stringcell.String cell]) (cells g) [].

Fixpoint ContainsPersonalData_loop (cs : list Cell) : bool :=
  match cs with
  | [] => false
  | cell :: cs' =>
      if stringcell.ContainsPersonalData cell then true
      else ContainsPersonalData_loop cs'
  end.

Definition ContainsPersonalData (g : genericrecord) : bool :=
  ContainsPersonalData_loop (cells g).

Definition Timestamp `{Library} (g : genericrecord) : M Time :=
  cell <- lift (index (Cells g) 1) ;;
  let s := stringcell.String cell in
  _ <- Log s ;;
  let '(time, err) := time_Parse s in
  match err with
  | Some e => panic e
  | None => ret time
  end.

Definition Actor (g : genericrecord) : result string :=
  match index (Cells g) 0 with
  | Panic msg => Panic msg
  | Done cell0 =>
      match index (strings.Split (stringcell.String cell0) "@") 0 with
      | Panic msg => Panic msg
      | Done cell =>
          let cell := strings.Trim cell dquote in
          Done (strings.Trim cell " ")
      end
  end.

Definition Action (g : genericrecord) : result string :=
  match index (Cells g) 0 with
  | Panic msg => Panic msg
  | Done cell =>
      let split := strings.Split (stringcell.String cell) dquote in
      index split (length split - 1)
  end.

End genericrecord.

(** ** The record store *)

Record RecordIO : Type := mkRecordIO {
  WriteCSV : string -> list genericrecord -> M (option error);
  ReadCSV : string -> M (list genericrecord * option error);
}.

Module recordio.

Definition ReadCSV `{Library} (filename : string)
  : M (list genericrecord * option error) :=
  '(data, err) <- ioutil.ReadFile filename ;;
  _ <- Log (Sprintf_d (String.length data)) ;;
  match err with
  | Some e => ret ([], Some e)
  | None =>
      let '(rawRecords, err) := csv_ReadAll data in
      _ <- Log (Sprintf_d (length rawRecords)) ;;
      match err with
      | Some e => ret ([], Some e)
      | None =>
          rest <- lift (slice_from rawRecords 1) ;;
          ret (fold_left (fun records rawRecord => records ++ [NewRecord rawRecord])
                         rest [],
               None)
      end
  end.

(** The writer is created over an empty buffer, every record is written
    to it (the error of [Write] is dropped), and the buffer's content is
    written to the file.  The writer is not flushed. *)
Definition WriteCSV (filename : string) (records : list genericrecord)
  : M (option error) :=
  let buffer := "" in
  let writer := csv.NewWriter buffer in
  let writer :=
    fold_left (fun wtr record => fst (csv.Write wtr (genericrecord.Raw record)))
              records writer in
  ioutil.WriteFile filename (bufio.wr (csv.w writer)) 775.

End recordio.

Definition NewRecordIO `{Library} : RecordIO :=
  {| WriteCSV := recordio.WriteCSV; ReadCSV := recordio.ReadCSV |}.

(** ** The command *)

(** The filtering loop of the action: [santitized] is the slice built so far. *)
Fixpoint sanitize_loop (records santitized : list genericrecord)
  : M (list genericrecord) :=
  match records with
  | [] => ret santitized
  | record :: records' =>
      if genericrecord.ContainsPersonalData record then
        _ <- Log ("discarding unsanitized row: " +:+ dquote
             +:+ Sprintf_s_slice (genericrecord.Raw record) +:+ dquote) ;;
        sanitize_loop records' santitized
      else sanitize_loop records' (santitized ++ [record])
  end.

(** The sanitizer: the last part of the action, from the allocation of
    [santitized] to the call of the writer. *)
Definition sanitizer (io : RecordIO) (output : string) (records : list genericrecord)
  : M (option error) :=
  santitized <- sanitize_loop records [] ;;
  WriteCSV io output santitized.

(** The action of the command, for the values [filename] and [output] of
    its two flags, over a record store [io]. *)
Definition Action_with (io : RecordIO) (filename output : string) : M (option error) :=
  _ <- Log ("anonimizing file '" +:+ filename +:+ "'") ;;
  '(records, err) <- ReadCSV io filename ;;
  _ <- Log (Sprintf_d (length records)) ;;
  match err with
  | Some e => ret (Some e)
  | None =>
      if length records =? 0 then
        _ <- Log "no records to santize, exiting" ;;
        ret None
      else sanitizer io output records
  end.

(** The action as the program runs it: the store is [NewRecordIO()]. *)
Definition Action `{Library} (filename output : string) : M (option error) :=
  Action_with NewRecordIO filename output.

(** ** An instance of the library parameters, for running the model

    [plain_ReadAll] reads the fragment of the format that has no quotes and
    no carriage returns: rows are the non-empty lines, fields are separated
    by commas, and every row must have as many fields as the first.
    [utc_Parse] reads date-times of the exact form YYYY-MM-DDTHH:MM:SSZ.
    On these fragments they return what the library returns; anything else
    is answered with an error, and no theorem below depends on that
    answer. *)

Module fragment.

Record utc : Type := mkUtc {
  year : nat; month : nat; day : nat; hour : nat; minute : nat; second : nat;
}.

Definition digit (c : Ascii.ascii) : option nat :=
  let n := Ascii.nat_of_ascii c in
  if (48 <=? n) && (n <=? 57) then Some (n - 48) else None.

Fixpoint number (acc : nat) (s : string) : option nat :=
  match s with
  | "" => Some acc
  | String c s' =>
      match digit c with
      | Some d => number (10 * acc + d) s'
      | None => None
      end
  end.

Definition field (s : string) (from len : nat) : option nat :=
  let t := str_take len (str_drop from s) in
  if String.length t =? len then number 0 t else None.

Definition leap (y : nat) : bool :=
  ((y mod 4 =? 0) && negb (y mod 100 =? 0)) || (y mod 400 =? 0).

Definition daysIn (m y : nat) : nat :=
  match m with
  | 2 => if leap y then 29 else 28
  | 4 | 6 | 9 | 11 => 30
  | _ => 31
  end.

Definition separators_ok (s : string) : bool :=
  String.eqb (str_take 1 (str_drop 4 s)) "-"
  && String.eqb (str_take 1 (str_drop 7 s)) "-"
  && String.eqb (str_take 1 (str_drop 10 s)) "T"
  && String.eqb (str_take 1 (str_drop 13 s)) ":"
  && String.eqb (str_take 1 (str_drop 16 s)) ":"
  && String.eqb (str_drop 19 s) "Z".

Definition zero : utc := mkUtc 1 1 1 0 0 0.

Definition utc_Parse (s : string) : utc * option error :=
  let bad := (zero, Some ("parsing time " +:+ dquote +:+ s +:+ dquote
                          +:+ ": not a UTC date-time")) in
  if separators_ok s then
    match field s 0 4, field s 5 2, field s 8 2,
          field s 11 2, field s 14 2, field s 17 2 with
    | Some y, Some mo, Some d, Some h, Some mi, Some se =>
        if (1 <=? mo) && (mo <=? 12) && (1 <=? d) && (d <=? daysIn mo y)
           && (h <? 24) && (mi <? 60) && (se <? 60)
        then (mkUtc y mo d h mi se, None)
        else bad
    | _, _, _, _, _, _ => bad
    end
  else bad.

Definition newline : string := String lf_char "".

Fixpoint rows (lines : list string) (lineno fields : nat)
  : list (list string) * option error :=
  match lines with
  | [] => ([], None)
  | line :: lines' =>
      if String.eqb line "" then rows lines' (S lineno) fields
      else
        let row := strings.Split line "," in
        let fields' := if fields =? 0 then length row else fields in
        if length row =? fields' then
          match rows lines' (S lineno) fields' with
          | (rs, None) => (row :: rs, None)
          | (_, Some e) => ([], Some e)
          end
        else ([], Some ("record on line " +:+ pretty lineno
                        +:+ ": wrong number of fields"))
  end.

Definition plain_ReadAll (data : string) : list (list string) * option error :=
  if csv.containsByte (fun c => Ascii.eqb c dquote_char || Ascii.eqb c cr_char) data
  then ([], Some "input outside the plain fragment")
  else rows (strings.Split data newline) 1 0.

#[export] Instance library : Library :=
  {| Time := utc; time_Parse := utc_Parse; csv_ReadAll := plain_ReadAll |}.

(** A world with one input file. *)
Definition world (path content : string) : World :=
  {| files := {[ path := content ]}; denied := ∅; stdout := [] |}.

End fragment.

(** * Vocabulary of the properties *)

(** [sub] occurs in [s]: some bytes, then [sub], then some bytes. *)
Definition occurs_in (sub s : string) : Prop :=
  exists pre post : string, s = pre +:+ sub +:+ post.

(** The definition of the record's flag in the words of the specification:
    every cell is asked, and the answers are joined by a disjunction. *)
Definition any_cell_naive (g : genericrecord) : bool :=
  fold_left (fun found cell => found || stringcell.ContainsPersonalData cell)
            (genericrecord.Cells g) false.

(** The cell of the example: two spaces, the address, a space and the word
    raise between double quotes. *)
Definition bob_cell : string :=
  "  bob@example.com " +:+ dquote +:+ "raise" +:+ dquote.

(** A world with a well-formed file, a file with a short row, and no other. *)
Definition sample_world : World :=
  {| files :=
       {[ "in.csv" := "h1,h2" +:+ fragment.newline +:+ "a,b" +:+ fragment.newline
                      +:+ "c,d" +:+ fragment.newline;
          "ragged.csv" := "h1,h2" +:+ fragment.newline +:+ "a" +:+ fragment.newline;
          "header.csv" := "h1,h2" +:+ fragment.newline;
          "empty.csv" := "" ]};
     denied := ∅;
     stdout := [] |}.

(** The notice printed for a discarded record. *)
Definition discard_notice (record : genericrecord) : string :=
  "discarding unsanitized row: " +:+ dquote
  +:+ Sprintf_s_slice (genericrecord.Raw record) +:+ dquote.

(** The records without personal data, in the order of the input. *)
Definition without_personal_data (records : list genericrecord) : list genericrecord :=
  List.filter (fun record => negb (genericrecord.ContainsPersonalData record)) records.

(** The notices for the records with personal data, in the order of the input. *)
Definition discard_notices (records : list genericrecord) : list string :=
  map discard_notice (List.filter genericrecord.ContainsPersonalData records).

(** Everything a buffered writer has accepted: what it forwarded, then what
    it still holds. *)
Definition stream (b : bufio.Writer) : string := bufio.wr b +:+ bufio.buf b.

(** Nothing has been forwarded yet, unless more than a buffer was written. *)
Definition holds_back (b : bufio.Writer) : Prop :=
  bufio.wr b = "" \/ bufio.defaultBufSize < String.length (stream b).

(** [b'] is [b] after the bytes [s] were written to it. *)
Definition extends (b b' : bufio.Writer) (s : string) : Prop :=
  stream b' = stream b +:+ s /\ (holds_back b -> holds_back b').

(** The number of rounds [WriteString] needs at most. *)
Definition rounds (b : bufio.Writer) (s : string) : nat :=
  String.length s + (if bufio.Available b =? 0 then 1 else 0).

(** The text of one row, in the words of the format: the fields, quoted
    where needed, separated by the delimiter and followed by the line
    ending. *)
Definition enc_special (useCRLF : bool) (c : Ascii.ascii) : string :=
  if Ascii.eqb c dquote_char then dquote +:+ dquote
  else if Ascii.eqb c cr_char then (if useCRLF then "" else String cr_char "")
       else (if useCRLF then String cr_char (String lf_char "") else String lf_char "").

Fixpoint enc_quoted (useCRLF : bool) (field : string) : string :=
  match field with
  | "" => ""
  | String c field' =>
      (if csv.isSpecial c then enc_special useCRLF c else String c "")
      +:+ enc_quoted useCRLF field'
  end.

Definition enc_field (wtr : csv.Writer) (field : string) : string :=
  if csv.fieldNeedsQuotes wtr field
  then dquote +:+ enc_quoted (csv.UseCRLF wtr) field +:+ dquote
  else field.

Definition line_ending (wtr : csv.Writer) : string :=
  if csv.UseCRLF wtr then String cr_char (String lf_char "") else String lf_char "".

Definition enc_record (wtr : csv.Writer) (record : list string) : string :=
  strings.Join (map (enc_field wtr) record) (String (csv.Comma wtr) "")
  +:+ line_ending wtr.

Fixpoint concat_rows (rows : list string) : string :=
  match rows with
  | [] => ""
  | row :: rows' => row +:+ concat_rows rows'
  end.

(** The rows of a sequence of records: one row per record, from its raw
    fields, in the order of the sequence, and nothing else. *)
Definition csv_rows (records : list genericrecord) : string :=
  concat_rows (map (fun record => enc_record (csv.NewWriter "") (genericrecord.Raw record))
                   records).

(** The buffer that [WriteCSV] hands to [WriteFile]. *)
Definition WriteCSV_buffer (records : list genericrecord) : csv.Writer :=
  fold_left (fun wtr record => fst (csv.Write wtr (genericrecord.Raw record)))
            records (csv.NewWriter "").

(** The text written by the loop over the fields, the first of which has
    the index [n]. *)
Definition enc_fields_from (wtr : csv.Writer) (n : nat) (record : list string) : string :=
  match record with
  | [] => ""
  | _ => (if 0 <? n then String (csv.Comma wtr) "" else "")
         +:+ strings.Join (map (enc_field wtr) record) (String (csv.Comma wtr) "")
  end.

(** A world in which the target file already has content. *)
Definition old_world : World :=
  {| files := {[ "out.csv" := "old content" ]}; denied := ∅; stdout := [] |}.

(** The number of occurrences of the byte [c] in [s]. *)
Fixpoint count_byte (c : Ascii.ascii) (s : string) : nat :=
  match s with
  | "" => 0
  | String d s' => (if Ascii.eqb d c then 1 else 0) + count_byte c s'
  end.

Definition first_byte (s : string) : option Ascii.ascii :=
  match s with
  | "" => None
  | String c _ => Some c
  end.

Fixpoint last_byte (s : string) : option Ascii.ascii :=
  match s with
  | "" => None
  | String c "" => Some c
  | String _ s' => last_byte s'
  end.

Definition period_char : Ascii.ascii := Ascii.ascii_of_nat 46.
Definition at_char : Ascii.ascii := Ascii.ascii_of_nat 64.
Definition space_char : Ascii.ascii := Ascii.ascii_of_nat 32.

(** * Properties *)

(** ** Byte strings *)

#[local] Arguments String.append _ _ : simpl nomatch.

Lemma append_nil_r (s : string) : s +:+ "" = s.
Proof. induction s as [|c s IH]; simpl; [reflexivity | now rewrite IH]. Qed.

Lemma append_assoc (s t u : string) : (s +:+ t) +:+ u = s +:+ t +:+ u.
Proof. induction s as [|c s IH]; simpl; [reflexivity | now rewrite IH]. Qed.

Lemma length_append (s t : string) :
  String.length (s +:+ t) = String.length s + String.length t.
Proof. induction s as [|c s IH]; simpl; [reflexivity | now rewrite IH]. Qed.

Lemma take_drop (n : nat) (s : string) : str_take n s +:+ str_drop n s = s.
Proof.
  revert s; induction n as [|n IH]; intros [|c s]; simpl; try reflexivity.
  now rewrite IH.
Qed.

Lemma length_drop (n : nat) (s : string) :
  String.length (str_drop n s) = String.length s - n.
Proof.
  revert s; induction n as [|n IH]; intros [|c s]; simpl; try reflexivity.
  apply IH.
Qed.

(** ** [strings.Contains] decides the substring relation *)

Lemma HasPrefix_true (s p : string) :
  strings.HasPrefix s p = true <-> exists post, s = p +:+ post.
Proof.
  revert s; induction p as [|c p IH]; intros s; simpl.
  - split; [intros _; now exists s | reflexivity].
  - destruct s as [|d s].
    + split; [discriminate | intros [post Hp]; discriminate].
    + destruct (Ascii.eqb_spec d c) as [->|Hne].
      * rewrite IH. split; intros [post Hp]; exists post; congruence.
      * split; [discriminate | intros [post Hp]; congruence].
Qed.

Lemma Index_prefix (s sub : string) :
  strings.HasPrefix s sub = true -> strings.Index s sub = 0%Z.
Proof. intros Hp. destruct s; simpl; now rewrite Hp. Qed.

Lemma Index_lower_bound (s sub : string) : (-1 <= strings.Index s sub)%Z.
Proof.
  induction s as [|c s IH]; simpl.
  - destruct (strings.HasPrefix "" sub); lia.
  - destruct (strings.HasPrefix (String c s) sub); [lia|].
    destruct (Z.ltb_spec (strings.Index s sub) 0); lia.
Qed.

Lemma Index_found (s sub : string) :
  (0 <= strings.Index s sub)%Z <-> occurs_in sub s.
Proof.
  split.
  - induction s as [|c s IH]; simpl.
    + destruct (strings.HasPrefix "" sub) eqn:Hp; [|lia].
      intros _. apply HasPrefix_true in Hp as [post Hp].
      now exists "", post.
    + destruct (strings.HasPrefix (String c s) sub) eqn:Hp.
      * intros _. apply HasPrefix_true in Hp as [post Hp].
        now exists "", post.
      * destruct (Z.ltb_spec (strings.Index s sub) 0) as [Hlt|Hge]; [lia|].
        intros _. destruct (IH Hge) as (pre & post & ->).
        now exists (String c pre), post.
  - intros (pre & post & ->).
    induction pre as [|c pre IH]; simpl.
    + rewrite Index_prefix; [lia|].
      apply HasPrefix_true. now exists post.
    + destruct (strings.HasPrefix _ sub); [lia|].
      destruct (Z.ltb_spec (strings.Index (pre +:+ sub +:+ post) sub) 0); lia.
Qed.

Lemma Contains_occurs (s sub : string) :
  strings.Contains s sub = true <-> occurs_in sub s.
Proof.
  unfold strings.Contains. rewrite Z.leb_le. apply Index_found.
Qed.

(** ** Cells and records *)

Lemma fold_left_snoc_map {A B} (f : A -> B) (l : list A) (acc : list B) :
  fold_left (fun out x => out ++ [f x]) l acc = acc ++ map f l.
Proof.
  revert acc; induction l as [|x l IH]; intros acc; simpl.
  - now rewrite app_nil_r.
  - rewrite IH, <- app_assoc. reflexivity.
Qed.

Lemma NewRecord_cells (records : list string) :
  cells (NewRecord records) = map stringcell records.
Proof. unfold NewRecord; simpl. apply (fold_left_snoc_map stringcell). Qed.

Lemma Raw_map (g : genericrecord) :
  genericrecord.Raw g = map stringcell.String (cells g).
Proof. unfold genericrecord.Raw. apply (fold_left_snoc_map stringcell.String). Qed.

(** C6. For every sequence of raw string fields, the record built from it
    gives back, by [Raw], exactly the same strings in the same order; the
    record has one cell per field. *)
Theorem Raw_NewRecord (records : list string) :
  genericrecord.Raw (NewRecord records) = records
  /\ length (genericrecord.Cells (NewRecord records)) = length records.
Proof.
  unfold genericrecord.Cells. rewrite Raw_map, NewRecord_cells. split.
  - induction records as [|s l IH]; simpl; [reflexivity | now rewrite IH].
  - apply length_map.
Qed.

(** C7. For every string [s], the cell of [s] reports personal data exactly
    when the text Your hand occurs in [s] as it stands: no case folding, no
    trimming.  In particular the empty cell, a cell with the marker in lower
    case and a cell with the marker broken by a space report none, and a cell
    with the marker between other text reports it. *)
Theorem stringcell_ContainsPersonalData_spec :
  (forall s : string,
      stringcell.ContainsPersonalData (stringcell s) = true
      <-> occurs_in "Your hand" s)
  /\ stringcell.ContainsPersonalData (stringcell "") = false
  /\ stringcell.ContainsPersonalData (stringcell "your hand") = false
  /\ stringcell.ContainsPersonalData (stringcell "Your  hand") = false
  /\ stringcell.ContainsPersonalData (stringcell " xYour hand: 77 ") = true.
Proof.
  split; [|repeat split; reflexivity].
  intros s. unfold stringcell.ContainsPersonalData, stringcell.personalDataKeys.
  cbn [stringcell.ContainsPersonalData_loop].
  rewrite <- Contains_occurs.
  destruct (strings.Contains s "Your hand"); split; congruence.
Qed.

Lemma fold_left_orb_true {A} (p : A -> bool) (l : list A) :
  fold_left (fun found x => found || p x) l true = true.
Proof. induction l as [|x l IH]; simpl; [reflexivity | apply IH]. Qed.

Lemma ContainsPersonalData_loop_naive (cs : list Cell) :
  genericrecord.ContainsPersonalData_loop cs
  = fold_left (fun found cell => found || stringcell.ContainsPersonalData cell) cs false.
Proof.
  induction cs as [|c cs IH]; simpl; [reflexivity|].
  destruct (stringcell.ContainsPersonalData c); simpl.
  - now rewrite fold_left_orb_true.
  - apply IH.
Qed.

Lemma ContainsPersonalData_loop_exists (cs : list Cell) :
  genericrecord.ContainsPersonalData_loop cs = true
  <-> exists (i : nat) (cell : Cell),
        cs !! i = Some cell /\ stringcell.ContainsPersonalData cell = true.
Proof.
  induction cs as [|c cs IH]; simpl.
  - split; [discriminate | intros (i & cell & Hi & _); destruct i; discriminate].
  - destruct (stringcell.ContainsPersonalData c) eqn:Hc.
    + split; [intros _; now exists 0, c | reflexivity].
    + rewrite IH. split.
      * intros (i & cell & Hi & Hcell). now exists (S i), cell.
      * intros ([|i] & cell & Hi & Hcell); simpl in Hi.
        -- congruence.
        -- now exists i, cell.
Qed.

(** C8. For every record, [ContainsPersonalData] is true exactly when the
    cell at some index reports personal data, and the loop that returns at
    the first match computes the same value as asking every cell. *)
Theorem genericrecord_ContainsPersonalData_spec (g : genericrecord) :
  (genericrecord.ContainsPersonalData g = true
   <-> exists (i : nat) (cell : Cell),
         genericrecord.Cells g !! i = Some cell
         /\ stringcell.ContainsPersonalData cell = true)
  /\ genericrecord.ContainsPersonalData g = any_cell_naive g.
Proof.
  split.
  - apply ContainsPersonalData_loop_exists.
  - apply ContainsPersonalData_loop_naive.
Qed.

(** ** Actor and action *)

Lemma split_scan_not_nil (sep s : string) (skip : nat) (cur : string) :
  strings.split_scan sep s skip cur <> [].
Proof.
  revert skip cur; induction s as [|c s IH]; intros skip cur; simpl.
  - discriminate.
  - destruct skip; [|apply IH].
    destruct (strings.HasPrefix (String c s) sep); [discriminate | apply IH].
Qed.

Lemma index_last {A} (l : list A) (d : A) :
  l <> [] -> index l (length l - 1) = Done (List.last l d).
Proof.
  intros Hl. unfold index.
  destruct l as [|x l] using rev_ind; [contradiction|].
  rewrite length_app, List.last_last; simpl.
  replace (length l + 1 - 1) with (length l) by lia.
  now rewrite list_lookup_middle.
Qed.

(** [Action] returns the last segment of the first cell split at the double
    quotes, that is the text after the last double quote. *)
Lemma Action_last_segment (g : genericrecord) (cell : Cell) :
  genericrecord.Cells g !! 0 = Some cell ->
  genericrecord.Action g
  = Done (List.last (strings.Split (stringcell.String cell) dquote) "").
Proof.
  intros Hc. unfold genericrecord.Action, index at 1. rewrite Hc.
  apply index_last. apply split_scan_not_nil.
Qed.

(** C3 as specified does not hold: on the record of the example [Actor]
    returns bob, but [Action] returns the empty string and not the word
    raise. *)
Lemma Action_bob_is_empty :
  genericrecord.Actor (NewRecord [bob_cell; "2024-01-01T00:00:00Z"]) = Done "bob"
  /\ genericrecord.Action (NewRecord [bob_cell; "2024-01-01T00:00:00Z"]) = Done ""
  /\ genericrecord.Action (NewRecord [bob_cell; "2024-01-01T00:00:00Z"])
     <> Done "raise".
Proof. split; [reflexivity|]. split; [reflexivity | discriminate]. Qed.

(** C3, as the code has it.  For every record whose first cell is the cell of the
    example, [Actor] returns bob, and [Action], which splits the first cell
    at the double quotes and takes the last segment, returns the empty
    string: the cell ends with a double quote, and the word raise is the
    segment before the last. *)
Theorem Actor_Action_bob (rest : list Cell) :
  let g := {| cells := stringcell bob_cell :: rest |} in
  genericrecord.Actor g = Done "bob"
  /\ strings.Split bob_cell dquote = ["  bob@example.com "; "raise"; ""]
  /\ genericrecord.Action g = Done (List.last (strings.Split bob_cell dquote) "")
  /\ genericrecord.Action g = Done "".
Proof.
  intros g. split; [reflexivity|]. split; [reflexivity|].
  split; [|reflexivity].
  apply (Action_last_segment g (stringcell bob_cell)). reflexivity.
Qed.

(** ** Timestamp *)

(** C4. For every record with at least two cells, [Timestamp] hands the
    text of the second cell to the parser; when the parser succeeds the
    parsed value is returned, and when it fails the call panics with the
    parser's error, whatever value came with the error.  The text is printed
    in both cases. *)
Theorem Timestamp_parses_or_panics `{Library} (g : genericrecord) (w : World) :
  2 <= length (genericrecord.Cells g) ->
  exists cell : Cell,
    genericrecord.Cells g !! 1 = Some cell
    /\ genericrecord.Timestamp g w
       = (match time_Parse (stringcell.String cell) with
          | (time, None) => Done time
          | (_, Some e) => Panic e
          end,
          log_line (stringcell.String cell) w).
Proof.
  intros Hlen.
  destruct (genericrecord.Cells g !! 1) as [cell|] eqn:Hc.
  - exists cell. split; [reflexivity|].
    unfold genericrecord.Timestamp, bind, lift, index. rewrite Hc.
    unfold Log. destruct (time_Parse (stringcell.String cell)) as [t [e|]]; reflexivity.
  - apply lookup_ge_None in Hc. lia.
Qed.

Lemma Timestamp_parses_or_panics_witness :
  fst (@genericrecord.Timestamp fragment.library
         (NewRecord ["a@b"; "2024-02-29T23:59:58Z"]) (fragment.world "in.csv" ""))
  = Done (fragment.mkUtc 2024 2 29 23 59 58)
  /\ fst (@genericrecord.Timestamp fragment.library
            (NewRecord ["a@b"; "yesterday"]) (fragment.world "in.csv" ""))
     = Panic ("parsing time " +:+ dquote +:+ "yesterday" +:+ dquote
              +:+ ": not a UTC date-time").
Proof.
  split.
  - destruct (Timestamp_parses_or_panics (H := fragment.library)
                (NewRecord ["a@b"; "2024-02-29T23:59:58Z"])
                (fragment.world "in.csv" "")) as (cell & Hc & ->).
    + simpl. lia.
    + injection Hc as <-. reflexivity.
  - destruct (Timestamp_parses_or_panics (H := fragment.library)
                (NewRecord ["a@b"; "yesterday"])
                (fragment.world "in.csv" "")) as (cell & Hc & ->).
    + simpl. lia.
    + injection Hc as <-. reflexivity.
Defined.

(** ** Reading *)

Lemma fold_left_NewRecord (rows : list (list string)) :
  fold_left (fun records rawRecord => records ++ [NewRecord rawRecord]) rows []
  = map NewRecord rows.
Proof. apply (fold_left_snoc_map NewRecord rows []). Qed.

Lemma rows_roundtrip (rows : list (list string)) :
  map genericrecord.Raw (map NewRecord rows) = rows.
Proof.
  induction rows as [|r rows IH]; simpl; [reflexivity|].
  rewrite IH. f_equal.
  rewrite Raw_map, NewRecord_cells.
  induction r as [|s r IHr]; simpl; [reflexivity | now rewrite IHr].
Qed.

(** What [ReadCSV] does on a file that can be read, by the answer of the
    CSV reader. *)
Lemma ReadCSV_readable `{Library} (filename data : string) (w : World) :
  files w !! filename = Some data ->
  recordio.ReadCSV filename w
  = let w1 := log_line (Sprintf_d (String.length data)) w in
    let '(rawRecords, err) := csv_ReadAll data in
    let w2 := log_line (Sprintf_d (length rawRecords)) w1 in
    match err, rawRecords with
    | Some e, _ => (Done ([], Some e), w2)
    | None, [] => (Panic "runtime error: slice bounds out of range [1:0]", w2)
    | None, _ :: rest => (Done (map NewRecord rest, None), w2)
    end.
Proof.
  intros Hf. unfold recordio.ReadCSV, bind, ioutil.ReadFile, Log. rewrite Hf.
  cbv zeta. destruct (csv_ReadAll data) as [rawRecords [e|]]; [reflexivity|].
  destruct rawRecords as [|header rest]; [reflexivity|].
  unfold lift, slice_from, ret. cbn [length Nat.leb drop].
  now rewrite fold_left_NewRecord.
Qed.

Lemma ReadCSV_unreadable `{Library} (filename : string) (w : World) :
  files w !! filename = None ->
  recordio.ReadCSV filename w
  = (Done ([], Some ("open " +:+ filename +:+ ": no such file or directory")),
     log_line "0" w).
Proof.
  intros Hf. unfold recordio.ReadCSV, bind, ioutil.ReadFile, Log. now rewrite Hf.
Qed.

Lemma ReadCSV_files `{Library} (filename : string) (w : World) :
  files (snd (recordio.ReadCSV filename w)) = files w
  /\ denied (snd (recordio.ReadCSV filename w)) = denied w.
Proof.
  destruct (files w !! filename) as [data|] eqn:Hf.
  - rewrite (ReadCSV_readable filename data w Hf). cbv zeta.
    destruct (csv_ReadAll data) as [rawRecords [e|]]; [now split|].
    destruct rawRecords; now split.
  - rewrite (ReadCSV_unreadable filename w Hf). now split.
Qed.

(** C5. When the file can be read and its content parses as the rows
    [header], [R1] .. [Rn], [ReadCSV] returns without error exactly [n]
    records, the records built from [R1] .. [Rn] in order, whose raw fields
    are these rows; the header is left out.  When the file cannot be read,
    or the reader rejects the content, [ReadCSV] returns an error and no
    record.  The files are left as they were. *)
Theorem ReadCSV_spec `{Library} (filename : string) (w : World) :
  (forall (data : string) (header : list string) (Rs : list (list string)),
      files w !! filename = Some data ->
      csv_ReadAll data = (header :: Rs, None) ->
      fst (recordio.ReadCSV filename w) = Done (map NewRecord Rs, None)
      /\ map genericrecord.Raw (map NewRecord Rs) = Rs
      /\ length (map NewRecord Rs) = length Rs)
  /\ (files w !! filename = None ->
      exists e : error, fst (recordio.ReadCSV filename w) = Done ([], Some e))
  /\ (forall (data : string) (rows : list (list string)) (e : error),
      files w !! filename = Some data ->
      csv_ReadAll data = (rows, Some e) ->
      fst (recordio.ReadCSV filename w) = Done ([], Some e))
  /\ files (snd (recordio.ReadCSV filename w)) = files w.
Proof.
  split; [|split; [|split]].
  - intros data header Rs Hf Hp. split; [|split].
    + rewrite (ReadCSV_readable filename data w Hf). cbv zeta. now rewrite Hp.
    + apply rows_roundtrip.
    + apply length_map.
  - intros Hf. eexists. now rewrite (ReadCSV_unreadable filename w Hf).
  - intros data rows e Hf Hp.
    rewrite (ReadCSV_readable filename data w Hf). cbv zeta. now rewrite Hp.
  - apply ReadCSV_files.
Qed.

Lemma ReadCSV_spec_witness :
  fst (@recordio.ReadCSV fragment.library "in.csv" sample_world)
  = Done ([NewRecord ["a"; "b"]; NewRecord ["c"; "d"]], None)
  /\ (exists e, fst (@recordio.ReadCSV fragment.library "missing.csv" sample_world)
                = Done ([], Some e))
  /\ fst (@recordio.ReadCSV fragment.library "ragged.csv" sample_world)
     = Done ([], Some "record on line 2: wrong number of fields").
Proof.
  split; [|split].
  - destruct (ReadCSV_spec (H := fragment.library) "in.csv" sample_world)
      as (Hrows & _).
    eapply (Hrows _ ["h1"; "h2"] [["a"; "b"]; ["c"; "d"]]);
      [vm_compute; reflexivity | vm_compute; reflexivity].
  - destruct (ReadCSV_spec (H := fragment.library) "missing.csv" sample_world)
      as (_ & Hmissing & _).
    apply Hmissing. vm_compute; reflexivity.
  - destruct (ReadCSV_spec (H := fragment.library) "ragged.csv" sample_world)
      as (_ & _ & Hbad & _).
    eapply (Hbad _ []); [vm_compute; reflexivity | vm_compute; reflexivity].
Defined.

(** C10. When the file can be read and the reader returns no row and no
    error, [ReadCSV] returns neither an error nor an empty sequence: the
    slice expression that drops the header panics.  With at least one row it
    returns normally, so one row is exactly the precondition under which the
    call does not fault. *)
Theorem ReadCSV_no_rows_panics `{Library} (filename data : string)
    (rawRecords : list (list string)) (w : World) :
  files w !! filename = Some data ->
  csv_ReadAll data = (rawRecords, None) ->
  (rawRecords = [] ->
   fst (recordio.ReadCSV filename w)
   = Panic "runtime error: slice bounds out of range [1:0]")
  /\ (rawRecords <> [] ->
      exists records, fst (recordio.ReadCSV filename w) = Done (records, None)).
Proof.
  intros Hf Hp. rewrite (ReadCSV_readable filename data w Hf). cbv zeta.
  rewrite Hp. split.
  - now intros ->.
  - destruct rawRecords as [|header rest]; [contradiction|]. intros _. now eexists.
Qed.

Lemma ReadCSV_no_rows_panics_witness :
  fst (@recordio.ReadCSV fragment.library "empty.csv" sample_world)
  = Panic "runtime error: slice bounds out of range [1:0]".
Proof.
  apply (ReadCSV_no_rows_panics (H := fragment.library) "empty.csv" "" [] sample_world);
    [vm_compute; reflexivity | vm_compute; reflexivity | reflexivity].
Defined.

(** ** The sanitizer *)

Lemma sanitize_loop_filter (records santitized : list genericrecord) (w : World) :
  sanitize_loop records santitized w
  = (Done (santitized ++ without_personal_data records),
     log_lines (discard_notices records) w).
Proof.
  revert santitized w; induction records as [|record records IH];
    intros santitized w; simpl.
  - unfold ret. now rewrite app_nil_r.
  - unfold without_personal_data, discard_notices; simpl.
    destruct (genericrecord.ContainsPersonalData record); simpl.
    + unfold bind, Log. apply IH.
    + rewrite IH, <- app_assoc. reflexivity.
Qed.

(** C2. For every sequence of records given to the sanitizer, and every
    record store, the sequence passed to the store's writer is the input
    with the records that contain personal data removed: the other records
    are all kept, once each and in their order.  The writer runs for the
    output path, after one notice per removed record has been printed. *)
Theorem sanitizer_forwards_filtered (io : RecordIO) (output : string)
    (records : list genericrecord) (w : World) :
  sanitizer io output records w
  = WriteCSV io output (without_personal_data records)
             (log_lines (discard_notices records) w).
Proof.
  unfold sanitizer, bind. now rewrite sanitize_loop_filter.
Qed.

(** The sanitizer runs exactly when reading returned at least one record
    and no error. *)
Lemma Action_with_records (io : RecordIO) (filename output : string)
    (records : list genericrecord) (w w1 : World) :
  ReadCSV io filename (log_line ("anonimizing file '" +:+ filename +:+ "'") w)
  = (Done (records, None), w1) ->
  records <> [] ->
  Action_with io filename output w
  = sanitizer io output records (log_line (Sprintf_d (length records)) w1).
Proof.
  intros Hread Hne. unfold Action_with, bind, Log. rewrite Hread.
  destruct records; [contradiction | reflexivity].
Qed.

(** ** The empty input *)

Lemma Action_with_no_records (io : RecordIO) (filename output : string) (w w1 : World) :
  ReadCSV io filename (log_line ("anonimizing file '" +:+ filename +:+ "'") w)
  = (Done ([], None), w1) ->
  Action_with io filename output w
  = (Done None, log_line "no records to santize, exiting" (log_line "0" w1)).
Proof.
  intros Hread. unfold Action_with, bind, Log. now rewrite Hread.
Qed.

(** C9. When reading returns an empty sequence of records and no error, the
    action returns success (a nil error); the writer is not called: the
    outcome is the same for every store that reads as the program's store
    does, whatever its writer would do; and the files are those from
    before the run, so no output file is created. *)
Theorem Action_empty_input `{Library} (filename output : string) (w w1 : World) :
  recordio.ReadCSV filename (log_line ("anonimizing file '" +:+ filename +:+ "'") w)
  = (Done ([], None), w1) ->
  Action filename output w
  = (Done None, log_line "no records to santize, exiting" (log_line "0" w1))
  /\ (forall write : string -> list genericrecord -> M (option error),
        Action_with {| WriteCSV := write; ReadCSV := recordio.ReadCSV |}
                    filename output w
        = Action filename output w)
  /\ files (snd (Action filename output w)) = files w.
Proof.
  intros Hread. split; [|split].
  - now apply Action_with_no_records.
  - intros write. unfold Action.
    rewrite (Action_with_no_records NewRecordIO filename output w w1 Hread).
    now apply Action_with_no_records.
  - unfold Action.
    rewrite (Action_with_no_records NewRecordIO filename output w w1 Hread).
    simpl. pose proof (ReadCSV_files filename
      (log_line ("anonimizing file '" +:+ filename +:+ "'") w)) as [Hfiles _].
    now rewrite Hread in Hfiles.
Qed.

Lemma Action_empty_input_witness :
  fst (@Action fragment.library "header.csv" "out.csv" sample_world) = Done None
  /\ files (snd (@Action fragment.library "header.csv" "out.csv" sample_world))
       !! "out.csv" = None.
Proof.
  destruct (Action_empty_input (H := fragment.library) "header.csv" "out.csv"
              sample_world
              (log_lines ["anonimizing file 'header.csv'"; "6"; "1"] sample_world))
    as (Hrun & _ & Hfiles).
  - vm_compute. reflexivity.
  - split.
    + now rewrite Hrun.
    + rewrite Hfiles. vm_compute. reflexivity.
Defined.

(** ** The buffered writer *)

Lemma extends_refl (b : bufio.Writer) : extends b b "".
Proof. split; [now rewrite append_nil_r | auto]. Qed.

Lemma extends_trans (b1 b2 b3 : bufio.Writer) (s t : string) :
  extends b1 b2 s -> extends b2 b3 t -> extends b1 b3 (s +:+ t).
Proof.
  intros [Hs1 Hh1] [Hs2 Hh2]. split; [|auto].
  now rewrite Hs2, Hs1, append_assoc.
Qed.

Lemma WriteString_loop_fits (fuel : nat) (b : bufio.Writer) (s : string) :
  String.length s <= bufio.Available b ->
  bufio.WriteString_loop (S fuel) b s
  = {| bufio.wr := bufio.wr b; bufio.buf := bufio.buf b +:+ s |}.
Proof.
  intros Hfit. simpl.
  destruct (Nat.ltb_spec (bufio.Available b) (String.length s)); [lia | reflexivity].
Qed.

Lemma rounds_next (b : bufio.Writer) (s : string) :
  bufio.Available b < String.length s ->
  rounds (bufio.Flush {| bufio.wr := bufio.wr b;
                         bufio.buf := bufio.buf b +:+ str_take (bufio.Available b) s |})
         (str_drop (bufio.Available b) s)
  < rounds b s.
Proof.
  intros Hlt. unfold rounds at 1. rewrite length_drop.
  change (bufio.Available (bufio.Flush _)) with bufio.defaultBufSize.
  unfold rounds. cbn [Nat.eqb bufio.defaultBufSize].
  destruct (Nat.eqb_spec (bufio.Available b) 0); lia.
Qed.

(** With enough fuel the loop of [WriteString] ends by its own test: more
    fuel does not change the result. *)
Lemma WriteString_loop_fuel (fuel fuel' : nat) (b : bufio.Writer) (s : string) :
  rounds b s < fuel -> rounds b s < fuel' ->
  bufio.WriteString_loop fuel b s = bufio.WriteString_loop fuel' b s.
Proof.
  revert fuel' b s; induction fuel as [|fuel IH]; intros fuel' b s H1 H2; [lia|].
  destruct fuel' as [|fuel']; [lia|]. simpl.
  destruct (Nat.ltb_spec (bufio.Available b) (String.length s)) as [Hlt|Hge];
    [|reflexivity].
  pose proof (rounds_next b s Hlt). apply IH; lia.
Qed.

Lemma WriteString_loop_stream (fuel : nat) (b : bufio.Writer) (s : string) :
  rounds b s < fuel ->
  stream (bufio.WriteString_loop fuel b s) = stream b +:+ s.
Proof.
  revert b s; induction fuel as [|fuel IH]; intros b s Hfuel; [lia|]. simpl.
  destruct (Nat.ltb_spec (bufio.Available b) (String.length s)) as [Hlt|Hge].
  - pose proof (rounds_next b s Hlt). rewrite IH by lia.
    unfold stream, bufio.Flush; simpl.
    rewrite append_nil_r, !append_assoc.
    now rewrite take_drop.
  - unfold stream; simpl. now rewrite append_assoc.
Qed.

Lemma rounds_enough (b : bufio.Writer) (s : string) :
  rounds b s < 2 + String.length s.
Proof. unfold rounds. destruct (bufio.Available b =? 0); lia. Qed.

Lemma WriteString_extends (b : bufio.Writer) (s : string) :
  extends b (bufio.WriteString b s) s.
Proof.
  assert (Hstream : stream (bufio.WriteString b s) = stream b +:+ s)
    by (apply WriteString_loop_stream, rounds_enough).
  split; [exact Hstream|].
  unfold holds_back. rewrite Hstream, length_append.
  intros [Hwr|Hlong]; [|right; lia].
  destruct (Nat.le_gt_cases (String.length s) (bufio.Available b)) as [Hfit|Hover].
  - left. unfold bufio.WriteString.
    change (2 + String.length s) with (S (S (String.length s))).
    now rewrite WriteString_loop_fits.
  - right. unfold stream. rewrite Hwr. simpl.
    unfold bufio.Available, bufio.Buffered in Hover. lia.
Qed.

Lemma WriteByte_extends (b : bufio.Writer) (c : Ascii.ascii) :
  extends b (bufio.WriteByte b c) (String c "").
Proof.
  unfold extends, holds_back, stream, bufio.WriteByte.
  destruct (Nat.eqb_spec (bufio.Available b) 0) as [Hfull|Hroom]; simpl.
  - split; [reflexivity|].
    intros _. right. rewrite !length_append. simpl.
    unfold bufio.Available, bufio.Buffered in Hfull. lia.
  - rewrite append_assoc. split; [reflexivity|].
    intros [Hwr|Hlong]; [now left | right].
    rewrite !length_append in *. simpl. lia.
Qed.

(** ** The CSV writer *)

Lemma writeQuoted_extends (useCRLF : bool) (field chunk : string) (b : bufio.Writer) :
  extends b (csv.writeQuoted useCRLF b field chunk)
          (chunk +:+ enc_quoted useCRLF field).
Proof.
  revert chunk b; induction field as [|c field IH]; intros chunk b; simpl.
  - rewrite append_nil_r. apply WriteString_extends.
  - destruct (csv.isSpecial c).
    + eapply extends_trans; [apply WriteString_extends|].
      eapply extends_trans; [|apply (IH "")]. unfold enc_special.
      destruct (Ascii.eqb c dquote_char); [apply WriteString_extends|].
      destruct (Ascii.eqb c cr_char), useCRLF;
        first [apply extends_refl | apply WriteByte_extends | apply WriteString_extends].
    + replace (chunk +:+ String c "" +:+ enc_quoted useCRLF field)
        with ((chunk +:+ String c "") +:+ enc_quoted useCRLF field)
        by now rewrite append_assoc.
      apply IH.
Qed.

Lemma writeField_extends (wtr : csv.Writer) (field : string) (b : bufio.Writer) :
  extends b (csv.writeField wtr b field) (enc_field wtr field).
Proof.
  unfold csv.writeField, enc_field.
  destruct (csv.fieldNeedsQuotes wtr field); [|apply WriteString_extends].
  eapply (extends_trans _ _ _ dquote); [apply WriteByte_extends|].
  eapply extends_trans; [|apply WriteByte_extends].
  apply (writeQuoted_extends _ _ "").
Qed.

Lemma writeFields_extends (wtr : csv.Writer) (record : list string) (n : nat)
    (b : bufio.Writer) :
  extends b (csv.writeFields wtr b n record) (enc_fields_from wtr n record).
Proof.
  revert n b; induction record as [|field record IH]; intros n b.
  - apply extends_refl.
  - cbn [csv.writeFields]. pose proof (IH (S n)) as IHn.
    assert (Hsep : extends b (if 0 <? n then bufio.WriteByte b (csv.Comma wtr) else b)
                           (if 0 <? n then String (csv.Comma wtr) "" else ""))
      by (destruct (0 <? n); [apply WriteByte_extends | apply extends_refl]).
    destruct record as [|field' record].
    + simpl. rewrite <- (append_nil_r (enc_field wtr field)) at 1.
      eapply extends_trans; [exact Hsep|].
      eapply extends_trans; [apply writeField_extends | apply extends_refl].
    + unfold enc_fields_from. cbn [map strings.Join].
      eapply extends_trans; [exact Hsep|].
      eapply extends_trans; [apply writeField_extends|].
      apply IHn.
Qed.

Lemma Write_extends (wtr : csv.Writer) (record : list string) :
  csv.validDelim (csv.Comma wtr) = true ->
  extends (csv.w wtr) (csv.w (fst (csv.Write wtr record))) (enc_record wtr record)
  /\ csv.Comma (fst (csv.Write wtr record)) = csv.Comma wtr
  /\ csv.UseCRLF (fst (csv.Write wtr record)) = csv.UseCRLF wtr.
Proof.
  intros Hvalid. unfold csv.Write. rewrite Hvalid. simpl. split; [|now split].
  unfold enc_record, line_ending.
  eapply extends_trans.
  - pose proof (writeFields_extends wtr record 0 (csv.w wtr)) as Hf.
    unfold enc_fields_from in Hf. destruct record; exact Hf.
  - destruct (csv.UseCRLF wtr); [apply WriteString_extends | apply WriteByte_extends].
Qed.

Lemma enc_record_settings (wtr wtr' : csv.Writer) (record : list string) :
  csv.Comma wtr' = csv.Comma wtr -> csv.UseCRLF wtr' = csv.UseCRLF wtr ->
  enc_record wtr' record = enc_record wtr record.
Proof.
  intros Hc Hu. unfold enc_record, line_ending, enc_field, csv.fieldNeedsQuotes.
  rewrite Hc, Hu. reflexivity.
Qed.

Lemma write_all_extends (records : list genericrecord) (wtr : csv.Writer) :
  csv.validDelim (csv.Comma wtr) = true ->
  extends (csv.w wtr)
    (csv.w (fold_left (fun wtr record => fst (csv.Write wtr (genericrecord.Raw record)))
                      records wtr))
    (concat_rows (map (fun record => enc_record wtr (genericrecord.Raw record)) records)).
Proof.
  revert wtr; induction records as [|record records IH]; intros wtr Hvalid; simpl.
  - apply extends_refl.
  - destruct (Write_extends wtr (genericrecord.Raw record) Hvalid) as (Hext & Hc & Hu).
    eapply extends_trans; [exact Hext|].
    replace (map (fun r => enc_record wtr (genericrecord.Raw r)) records)
      with (map (fun r => enc_record (fst (csv.Write wtr (genericrecord.Raw record)))
                                     (genericrecord.Raw r)) records).
    + apply IH. now rewrite Hc.
    + apply map_ext. intros r. now apply enc_record_settings.
Qed.

(** What the writer of [WriteCSV] has forwarded to the buffer, followed by
    what it still holds, is the text of the rows; and nothing is forwarded
    unless the rows take more than the writer's buffer. *)
Lemma WriteCSV_buffer_stream (records : list genericrecord) :
  stream (csv.w (WriteCSV_buffer records)) = csv_rows records
  /\ holds_back (csv.w (WriteCSV_buffer records)).
Proof.
  destruct (write_all_extends records (csv.NewWriter "") eq_refl) as [Hs Hh].
  split; [exact Hs | apply Hh; now left].
Qed.

(** ** Writing *)

Lemma WriteCSV_unfold (filename : string) (records : list genericrecord) (w : World) :
  filename ∉ denied w ->
  recordio.WriteCSV filename records w
  = (Done None, with_file filename (bufio.wr (csv.w (WriteCSV_buffer records))) w).
Proof.
  intros Hok. unfold recordio.WriteCSV, ioutil.WriteFile.
  destruct (decide (filename ∈ denied w)); [contradiction | reflexivity].
Qed.

(** Had the writer been flushed, the buffer would hold the text of the
    rows. *)
Lemma Flush_gives_rows (records : list genericrecord) :
  bufio.wr (csv.w (csv.Flush (WriteCSV_buffer records))) = csv_rows records.
Proof. apply WriteCSV_buffer_stream. Qed.

Lemma write_all_settings (records : list genericrecord) (wtr : csv.Writer) :
  csv.validDelim (csv.Comma wtr) = true ->
  let wtr' := fold_left (fun wtr record => fst (csv.Write wtr (genericrecord.Raw record)))
                        records wtr in
  csv.Comma wtr' = csv.Comma wtr /\ csv.UseCRLF wtr' = csv.UseCRLF wtr.
Proof.
  revert wtr; induction records as [|record records IH]; intros wtr Hvalid; simpl.
  - now split.
  - destruct (Write_extends wtr (genericrecord.Raw record) Hvalid) as (_ & Hc & Hu).
    destruct (IH (fst (csv.Write wtr (genericrecord.Raw record)))) as [Hc' Hu'].
    + now rewrite Hc.
    + split; congruence.
Qed.

Lemma WriteByte_buffered (b : bufio.Writer) (c : Ascii.ascii) :
  bufio.buf (bufio.WriteByte b c) <> "".
Proof.
  unfold bufio.WriteByte; simpl.
  destruct (bufio.buf (if bufio.Available b =? 0 then bufio.Flush b else b));
    discriminate.
Qed.

(** After a record was written, its line ending at least is still in the
    writer's buffer. *)
Lemma Write_buffered (wtr : csv.Writer) (record : list string) :
  csv.validDelim (csv.Comma wtr) = true ->
  csv.UseCRLF wtr = false ->
  bufio.buf (csv.w (fst (csv.Write wtr record))) <> "".
Proof.
  intros Hvalid Hlf. unfold csv.Write. rewrite Hvalid, Hlf. simpl.
  apply WriteByte_buffered.
Qed.

Lemma WriteCSV_buffer_buffered (records : list genericrecord) :
  records <> [] -> bufio.buf (csv.w (WriteCSV_buffer records)) <> "".
Proof.
  intros Hne. destruct records as [|record records] using rev_ind; [contradiction|].
  unfold WriteCSV_buffer. rewrite fold_left_app. simpl.
  destruct (write_all_settings records (csv.NewWriter "") eq_refl) as [Hc Hu].
  apply Write_buffered.
  - now rewrite Hc.
  - now rewrite Hu.
Qed.

(** C1 does not hold of the code.  [WriteCSV] builds the text of the rows,
    one row per record from its raw fields, in order and without a header,
    but it never flushes the CSV writer: when the target can be opened it is
    created or truncated and receives only a beginning [written] of that
    text, the rest [unflushed] staying in the writer's buffer, and [WriteCSV]
    reports success.  Whenever there is a record, some of the text is
    missing from the file; whenever the text is at most [defaultBufSize]
    bytes long, the file is left empty. *)
Theorem WriteCSV_loses_unflushed_rows (filename : string)
    (records : list genericrecord) (w : World) :
  filename ∉ denied w ->
  exists written unflushed : string,
    recordio.WriteCSV filename records w = (Done None, with_file filename written w)
    /\ written +:+ unflushed = csv_rows records
    /\ (records <> [] -> unflushed <> "" /\ written <> csv_rows records)
    /\ (String.length (csv_rows records) <= bufio.defaultBufSize -> written = "").
Proof.
  intros Hok.
  exists (bufio.wr (csv.w (WriteCSV_buffer records))),
         (bufio.buf (csv.w (WriteCSV_buffer records))).
  destruct (WriteCSV_buffer_stream records) as [Hs Hh]. unfold stream in Hs.
  split; [now apply WriteCSV_unfold|]. split; [exact Hs|]. split.
  - intros Hne. pose proof (WriteCSV_buffer_buffered records Hne) as Hbuf.
    split; [exact Hbuf|]. intros Hall. apply Hbuf.
    apply (f_equal String.length) in Hs. rewrite length_append, Hall in Hs.
    destruct (bufio.buf (csv.w (WriteCSV_buffer records))); [reflexivity|].
    simpl in Hs. lia.
  - intros Hsmall. destruct Hh as [Hwr|Hlong]; [exact Hwr|].
    unfold stream in Hlong. rewrite Hs in Hlong. lia.
Qed.

Lemma WriteCSV_loses_unflushed_rows_witness :
  csv_rows [NewRecord ["a"; "b"]] = "a,b" +:+ fragment.newline
  /\ recordio.WriteCSV "out.csv" [NewRecord ["a"; "b"]] old_world
     = (Done None, with_file "out.csv" "" old_world)
  /\ files (with_file "out.csv" "" old_world) !! "out.csv" = Some "".
Proof.
  split; [reflexivity|]. split; [|reflexivity].
  destruct (WriteCSV_loses_unflushed_rows "out.csv" [NewRecord ["a"; "b"]] old_world)
    as (written & unflushed & Hrun & _ & _ & Hsmall).
  - vm_compute. set_solver.
  - rewrite Hrun, Hsmall; [reflexivity|]. vm_compute. lia.
Defined.

(** ** A run of the command *)

(** On a file with a header and two rows, one of them with a hand, the
    command prints its notices, passes the other row to the writer, and
    leaves an empty output file, since the row stays in the unflushed
    writer. *)
Example Action_sample_run :
  let w := fragment.world "in.csv"
             ("actor,at,note" +:+ fragment.newline
              +:+ "a@b,2024-01-01T00:00:00Z,Your hand: 77" +:+ fragment.newline
              +:+ "c@d,2024-01-01T00:01:00Z,no data here" +:+ fragment.newline) in
  let '(r, w') := @Action fragment.library "in.csv" "out.csv" w in
  r = Done None
  /\ files w' !! "out.csv" = Some ""
  /\ stdout w'
     = ["anonimizing file 'in.csv'"; "91"; "3"; "2";
        "discarding unsanitized row: " +:+ dquote
        +:+ "[a@b 2024-01-01T00:00:00Z Your hand: 77]" +:+ dquote]
  /\ csv_rows (without_personal_data
                 [NewRecord ["a@b"; "2024-01-01T00:00:00Z"; "Your hand: 77"];
                  NewRecord ["c@d"; "2024-01-01T00:01:00Z"; "no data here"]])
     = "c@d,2024-01-01T00:01:00Z,no data here" +:+ fragment.newline.
Proof. vm_compute. repeat split. Qed.

(** * Further properties of the program *)

(** ** Splitting at one byte *)

Lemma count_byte_append (c : Ascii.ascii) (s t : string) :
  count_byte c (s +:+ t) = count_byte c s + count_byte c t.
Proof. induction s as [|d s IH]; simpl; [reflexivity | rewrite IH; lia]. Qed.

Lemma split_scan_byte_free (c : Ascii.ascii) (s cur : string) :
  count_byte c s = 0 -> strings.split_scan (String c "") s 0 cur = [cur +:+ s].
Proof.
  revert cur; induction s as [|d s IH]; intros cur Hfree; simpl in *.
  - now rewrite append_nil_r.
  - destruct (Ascii.eqb d c); [discriminate|].
    rewrite IH by exact Hfree. now rewrite append_assoc.
Qed.

Lemma split_scan_byte_at (c : Ascii.ascii) (pre post cur : string) :
  count_byte c pre = 0 ->
  strings.split_scan (String c "") (pre +:+ String c post) 0 cur
  = (cur +:+ pre) :: strings.split_scan (String c "") post 0 "".
Proof.
  revert cur; induction pre as [|d pre IH]; intros cur Hfree; simpl in *.
  - rewrite Ascii.eqb_refl, append_nil_r. reflexivity.
  - destruct (Ascii.eqb d c); [discriminate|].
    rewrite IH by exact Hfree. now rewrite append_assoc.
Qed.

Lemma split_scan_byte_length (c : Ascii.ascii) (s cur : string) :
  length (strings.split_scan (String c "") s 0 cur) = S (count_byte c s).
Proof.
  revert cur; induction s as [|d s IH]; intros cur; simpl; [reflexivity|].
  destruct (Ascii.eqb d c); simpl; now rewrite IH.
Qed.

Lemma count_byte_one (c : Ascii.ascii) (s : string) :
  count_byte c s = 1 ->
  exists pre post : string,
    s = pre +:+ String c post /\ count_byte c pre = 0 /\ count_byte c post = 0.
Proof.
  induction s as [|d s IH]; simpl; [discriminate|].
  destruct (Ascii.eqb_spec d c) as [->|Hne]; intros Hone.
  - exists "", s. repeat split; simpl; lia.
  - destruct (IH Hone) as (pre & post & -> & Hpre & Hpost).
    exists (String d pre), post. simpl.
    destruct (Ascii.eqb_spec d c); [contradiction | now repeat split].
Qed.

(** ** The name of the sanitized file *)

Lemma GetSanitizedFileName_parts (base ext : string) :
  count_byte period_char base = 0 -> count_byte period_char ext = 0 ->
  GetSanitizedFileName (base +:+ "." +:+ ext)
  = Done (base +:+ "_sanitized." +:+ ext).
Proof.
  intros Hbase Hext. unfold GetSanitizedFileName, strings.Split.
  change "."%string with (String period_char "").
  change (String period_char "" +:+ ext) with (String period_char ext).
  rewrite split_scan_byte_at by exact Hbase.
  rewrite split_scan_byte_free by exact Hext. reflexivity.
Qed.

Lemma GetSanitizedFileName_other (file : string) :
  count_byte period_char file <> 1 ->
  GetSanitizedFileName file = Panic ("file has multiple periods: " +:+ file).
Proof.
  intros Hne. unfold GetSanitizedFileName, strings.Split.
  change "."%string with (String period_char "").
  rewrite split_scan_byte_length.
  destruct (Nat.eqb_spec (S (count_byte period_char file)) 2); [lia | reflexivity].
Qed.

(** X1. A name with exactly one period is split at it, and the suffix is
    put before the period: [base.ext] becomes [base_sanitized.ext]. *)
Theorem GetSanitizedFileName_one_period (file : string) :
  count_byte period_char file = 1 ->
  exists base ext : string,
    file = base +:+ "." +:+ ext
    /\ count_byte period_char base = 0 /\ count_byte period_char ext = 0
    /\ GetSanitizedFileName file = Done (base +:+ "_sanitized." +:+ ext).
Proof.
  intros Hone. destruct (count_byte_one _ _ Hone) as (base & ext & -> & Hb & He).
  exists base, ext. split; [reflexivity|]. split; [exact Hb|]. split; [exact He|].
  now apply GetSanitizedFileName_parts.
Qed.

Lemma GetSanitizedFileName_one_period_witness :
  GetSanitizedFileName "poker_now_log.csv" = Done "poker_now_log_sanitized.csv".
Proof.
  destruct (GetSanitizedFileName_one_period "poker_now_log.csv")
    as (base & ext & Hfile & Hb & He & ->); [reflexivity|].
  change "."%string with (String period_char "") in Hfile.
  assert (Hsplit : strings.Split "poker_now_log.csv" "." = [base; ext]).
  { rewrite Hfile. unfold strings.Split.
    change (String period_char "" +:+ ext) with (String period_char ext).
    rewrite split_scan_byte_at by exact Hb.
    now rewrite split_scan_byte_free by exact He. }
  vm_compute in Hsplit. injection Hsplit as <- <-. reflexivity.
Defined.

(** X2. A name that does not have exactly one period makes
    [GetSanitizedFileName] panic with the message about multiple periods;
    this includes the names without any period. *)
Theorem GetSanitizedFileName_panics (file : string) :
  count_byte period_char file <> 1 ->
  GetSanitizedFileName file = Panic ("file has multiple periods: " +:+ file).
Proof. apply GetSanitizedFileName_other. Qed.

Lemma GetSanitizedFileName_panics_witness :
  GetSanitizedFileName "hands" = Panic "file has multiple periods: hands"
  /\ GetSanitizedFileName "logs.2024.csv"
     = Panic "file has multiple periods: logs.2024.csv".
Proof.
  split.
  - apply (GetSanitizedFileName_panics "hands"). vm_compute. lia.
  - apply (GetSanitizedFileName_panics "logs.2024.csv"). vm_compute. lia.
Defined.

(** X3. Whenever [GetSanitizedFileName] returns, its result again has
    exactly one period and is ten bytes longer than the input: it is never
    the input name, and it is itself accepted by the function. *)
Theorem GetSanitizedFileName_result (file r : string) :
  GetSanitizedFileName file = Done r ->
  count_byte period_char r = 1
  /\ String.length r = String.length file + 10
  /\ r <> file
  /\ exists r', GetSanitizedFileName r = Done r'.
Proof.
  intros Hrun.
  destruct (Nat.eq_dec (count_byte period_char file) 1) as [Hone|Hne].
  - destruct (count_byte_one _ _ Hone) as (base & ext & -> & Hb & He).
    change (String period_char ext) with ("." +:+ ext) in Hrun.
    rewrite (GetSanitizedFileName_parts base ext Hb He) in Hrun.
    assert (Hr : r = base +:+ "_sanitized." +:+ ext) by (now injection Hrun).
    clear Hrun. subst r.
    assert (Hcount : count_byte period_char (base +:+ "_sanitized." +:+ ext) = 1).
    { rewrite !count_byte_append, Hb, He. reflexivity. }
    assert (Hlen : String.length (base +:+ "_sanitized." +:+ ext)
                   = String.length (base +:+ String period_char ext) + 10).
    { rewrite !length_append. simpl. lia. }
    split; [exact Hcount|]. split; [exact Hlen|]. split.
    + intros Heq. rewrite Heq in Hlen. lia.
    + destruct (count_byte_one _ _ Hcount) as (b' & e' & Hr & Hb' & He').
      exists (b' +:+ "_sanitized." +:+ e'). rewrite Hr.
      now apply GetSanitizedFileName_parts.
  - rewrite (GetSanitizedFileName_other file Hne) in Hrun. discriminate.
Qed.

Lemma GetSanitizedFileName_result_witness :
  count_byte period_char "in_sanitized.csv" = 1
  /\ GetSanitizedFileName "in_sanitized.csv" = Done "in_sanitized_sanitized.csv".
Proof.
  destruct (GetSanitizedFileName_result "in.csv" "in_sanitized.csv" eq_refl)
    as (Hcount & _ & _ & _).
  split; [exact Hcount | reflexivity].
Defined.

(** ** Actor and action in general *)

Lemma last_cons_not_nil {A} (x d : A) (l : list A) :
  l <> [] -> List.last (x :: l) d = List.last l d.
Proof. destruct l; [contradiction | reflexivity]. Qed.

Lemma split_scan_byte_last (c : Ascii.ascii) (pre post cur : string) :
  count_byte c post = 0 ->
  List.last (strings.split_scan (String c "") (pre +:+ String c post) 0 cur) ""
  = post.
Proof.
  intros Hfree. revert cur; induction pre as [|d pre IH]; intros cur; simpl.
  - rewrite Ascii.eqb_refl. now rewrite split_scan_byte_free.
  - destruct (Ascii.eqb d c); [|apply IH].
    rewrite last_cons_not_nil by apply split_scan_not_nil. apply IH.
Qed.

(** X4. [Action] returns the text after the last double quote of the first
    cell, and the whole cell when it has no double quote. *)
Theorem Action_after_last_quote (rest : list Cell) :
  (forall pre post : string,
      count_byte dquote_char post = 0 ->
      genericrecord.Action {| cells := stringcell (pre +:+ dquote +:+ post) :: rest |}
      = Done post)
  /\ (forall s : string,
      count_byte dquote_char s = 0 ->
      genericrecord.Action {| cells := stringcell s :: rest |} = Done s).
Proof.
  split.
  - intros pre post Hfree.
    rewrite (Action_last_segment
               {| cells := stringcell (pre +:+ dquote +:+ post) :: rest |}
               (stringcell (pre +:+ dquote +:+ post)) eq_refl).
    f_equal. now apply split_scan_byte_last.
  - intros s Hfree.
    rewrite (Action_last_segment {| cells := stringcell s :: rest |}
                                 (stringcell s) eq_refl).
    f_equal. simpl. unfold strings.Split, dquote.
    now rewrite split_scan_byte_free.
Qed.

Lemma Action_after_last_quote_witness :
  genericrecord.Action
    (NewRecord [dquote +:+ "bob @ xyz" +:+ dquote +:+ " raises to 40";
                "2024-01-01T00:00:00Z"])
  = Done " raises to 40"
  /\ genericrecord.Action (NewRecord ["The flop: 2h 7d Kc"]) = Done "The flop: 2h 7d Kc".
Proof.
  destruct (Action_after_last_quote [stringcell "2024-01-01T00:00:00Z"]) as [Hq _].
  destruct (Action_after_last_quote []) as [_ Hn].
  split.
  - apply (Hq (dquote +:+ "bob @ xyz") " raises to 40"). reflexivity.
  - apply (Hn "The flop: 2h 7d Kc"). reflexivity.
Defined.

(** X5. [Actor] returns the text before the first at-sign of the first
    cell, or the whole cell when it has none, with the double quotes
    trimmed from both ends first and the spaces after that. *)
Theorem Actor_before_first_at (rest : list Cell) :
  (forall pre post : string,
      count_byte at_char pre = 0 ->
      genericrecord.Actor {| cells := stringcell (pre +:+ "@" +:+ post) :: rest |}
      = Done (strings.Trim (strings.Trim pre dquote) " "))
  /\ (forall s : string,
      count_byte at_char s = 0 ->
      genericrecord.Actor {| cells := stringcell s :: rest |}
      = Done (strings.Trim (strings.Trim s dquote) " ")).
Proof.
  split.
  - intros pre post Hfree. unfold genericrecord.Actor. simpl.
    unfold strings.Split. change "@"%string with (String at_char "").
    change (String at_char "" +:+ post) with (String at_char post).
    now rewrite split_scan_byte_at.
  - intros s Hfree. unfold genericrecord.Actor. simpl.
    unfold strings.Split. change "@"%string with (String at_char "").
    now rewrite split_scan_byte_free.
Qed.

Lemma Actor_before_first_at_witness :
  genericrecord.Actor
    (NewRecord [dquote +:+ "bob @ xyz" +:+ dquote +:+ " raises to 40";
                "2024-01-01T00:00:00Z"])
  = Done "bob"
  /\ genericrecord.Actor (NewRecord [" The flop: 2h 7d Kc "]) = Done "The flop: 2h 7d Kc".
Proof.
  destruct (Actor_before_first_at [stringcell "2024-01-01T00:00:00Z"]) as [Ha _].
  destruct (Actor_before_first_at []) as [_ Hn].
  split.
  - apply (Ha (dquote +:+ "bob ") (" xyz" +:+ dquote +:+ " raises to 40")). reflexivity.
  - apply (Hn " The flop: 2h 7d Kc "). reflexivity.
Defined.

Lemma count_byte_TrimLeft (c : Ascii.ascii) (s cutset : string) :
  count_byte c s = 0 -> count_byte c (strings.TrimLeft s cutset) = 0.
Proof.
  induction s as [|d s IH]; simpl; [reflexivity|].
  intros Hfree. destruct (strings.inCutset d cutset); [apply IH; lia | exact Hfree].
Qed.

Lemma count_byte_TrimRight (c : Ascii.ascii) (s cutset : string) :
  count_byte c s = 0 -> count_byte c (strings.TrimRight s cutset) = 0.
Proof.
  induction s as [|d s IH]; simpl; [reflexivity|].
  intros Hfree. assert (Hs : count_byte c s = 0) by lia. specialize (IH Hs).
  destruct (strings.TrimRight s cutset) as [|e t].
  - destruct (strings.inCutset d cutset); simpl; [reflexivity | lia].
  - simpl in *. lia.
Qed.

Lemma first_byte_TrimLeft (s cutset : string) (x : Ascii.ascii) :
  first_byte (strings.TrimLeft s cutset) = Some x -> strings.inCutset x cutset = false.
Proof.
  induction s as [|d s IH]; simpl; [discriminate|].
  destruct (strings.inCutset d cutset) eqn:Hd; [exact IH|].
  simpl. intros [= <-]. exact Hd.
Qed.

Lemma first_byte_TrimRight (s cutset : string) (x : Ascii.ascii) :
  first_byte (strings.TrimRight s cutset) = Some x -> first_byte s = Some x.
Proof.
  destruct s as [|d s]; simpl; [discriminate|].
  destruct (strings.TrimRight s cutset).
  - destruct (strings.inCutset d cutset); simpl; [discriminate | auto].
  - simpl. auto.
Qed.

Lemma last_byte_TrimRight (s cutset : string) (x : Ascii.ascii) :
  last_byte (strings.TrimRight s cutset) = Some x -> strings.inCutset x cutset = false.
Proof.
  induction s as [|d s IH]; simpl; [discriminate|].
  destruct (strings.TrimRight s cutset) as [|e t].
  - destruct (strings.inCutset d cutset) eqn:Hd; simpl; [discriminate|].
    intros [= <-]. exact Hd.
  - exact IH.
Qed.

Lemma split_scan_byte_head (c : Ascii.ascii) (s cur : string) :
  count_byte c cur = 0 ->
  exists seg segs,
    strings.split_scan (String c "") s 0 cur = seg :: segs /\ count_byte c seg = 0.
Proof.
  revert cur; induction s as [|d s IH]; intros cur Hcur; simpl.
  - now exists cur, [].
  - destruct (Ascii.eqb d c) eqn:Hd.
    + now exists cur, (strings.split_scan (String c "") s 0 "").
    + apply IH. rewrite count_byte_append, Hcur. simpl. now rewrite Hd.
Qed.

(** X6. Whatever [Actor] returns contains no at-sign and neither starts
    nor ends with a space. *)
Theorem Actor_result_shape (g : genericrecord) (a : string) :
  genericrecord.Actor g = Done a ->
  count_byte at_char a = 0
  /\ first_byte a <> Some space_char
  /\ last_byte a <> Some space_char.
Proof.
  unfold genericrecord.Actor.
  destruct (index (genericrecord.Cells g) 0) as [cell0|msg]; [|discriminate].
  unfold strings.Split. change "@"%string with (String at_char "").
  destruct (split_scan_byte_head at_char (stringcell.String cell0) "" eq_refl)
    as (seg & segs & -> & Hseg).
  unfold index. simpl. intros [= <-]. unfold strings.Trim. split; [|split].
  - now repeat (apply count_byte_TrimRight || apply count_byte_TrimLeft).
  - intros Hfirst. apply first_byte_TrimRight, first_byte_TrimLeft in Hfirst.
    discriminate.
  - intros Hlast. apply last_byte_TrimRight in Hlast. discriminate.
Qed.

Lemma Actor_result_shape_witness :
  count_byte at_char "bob" = 0
  /\ first_byte "bob" <> Some space_char /\ last_byte "bob" <> Some space_char.
Proof.
  apply (Actor_result_shape (NewRecord [bob_cell; "2024-01-01T00:00:00Z"]) "bob").
  reflexivity.
Defined.

(** X7. [Actor] and [Action] return normally on every record that has a
    first cell, and panic with an index out of range on the record without
    cells. *)
Theorem Actor_Action_need_first_cell (g : genericrecord) :
  (genericrecord.Cells g = [] ->
   genericrecord.Actor g = Panic "runtime error: index out of range [0] with length 0"
   /\ genericrecord.Action g = Panic "runtime error: index out of range [0] with length 0")
  /\ (genericrecord.Cells g <> [] ->
      exists a b : string,
        genericrecord.Actor g = Done a /\ genericrecord.Action g = Done b).
Proof.
  unfold genericrecord.Cells. destruct g as [[|cell0 cs]]; simpl; split.
  - intros _. split; reflexivity.
  - contradiction.
  - discriminate.
  - intros _.
    destruct (split_scan_byte_head at_char (stringcell.String cell0) "" eq_refl)
      as (seg & segs & Hsplit & _).
    exists (strings.Trim (strings.Trim seg dquote) " "),
           (List.last (strings.Split (stringcell.String cell0) dquote) "").
    split.
    + unfold genericrecord.Actor, strings.Split. simpl.
      change "@"%string with (String at_char ""). now rewrite Hsplit.
    + now apply Action_last_segment.
Qed.

Lemma Actor_Action_need_first_cell_witness :
  genericrecord.Actor (NewRecord [])
  = Panic "runtime error: index out of range [0] with length 0"
  /\ exists a b : string,
       genericrecord.Actor (NewRecord ["x"]) = Done a
       /\ genericrecord.Action (NewRecord ["x"]) = Done b.
Proof.
  split.
  - apply (Actor_Action_need_first_cell (NewRecord [])). reflexivity.
  - apply (Actor_Action_need_first_cell (NewRecord ["x"])). discriminate.
Defined.

(** X8. On a record with fewer than two cells [Timestamp] panics with an
    index out of range before it prints or parses anything. *)
Theorem Timestamp_needs_two_cells `{Library} (g : genericrecord) (w : World) :
  length (genericrecord.Cells g) < 2 ->
  genericrecord.Timestamp g w
  = (Panic ("runtime error: index out of range [1] with length "
            +:+ pretty (length (genericrecord.Cells g))), w).
Proof.
  intros Hshort. unfold genericrecord.Timestamp, bind, lift, index.
  rewrite (lookup_ge_None_2 (genericrecord.Cells g) 1) by lia. reflexivity.
Qed.

Lemma Timestamp_needs_two_cells_witness :
  @genericrecord.Timestamp fragment.library
    (NewRecord ["2024-01-01T00:00:00Z"]) sample_world
  = (Panic "runtime error: index out of range [1] with length 1", sample_world).
Proof.
  apply (Timestamp_needs_two_cells (H := fragment.library)
           (NewRecord ["2024-01-01T00:00:00Z"]) sample_world).
  simpl. lia.
Defined.

(** ** Flags of cells, records and sequences *)

Lemma stringcell_flag_occurs (s : string) :
  stringcell.ContainsPersonalData (stringcell s) = true <-> occurs_in "Your hand" s.
Proof.
  unfold stringcell.ContainsPersonalData, stringcell.personalDataKeys.
  cbn [stringcell.ContainsPersonalData_loop]. rewrite <- Contains_occurs.
  destruct (strings.Contains s "Your hand"); split; congruence.
Qed.

Lemma ContainsPersonalData_loop_In (cs : list Cell) :
  genericrecord.ContainsPersonalData_loop cs = true
  <-> exists cell, In cell cs /\ stringcell.ContainsPersonalData cell = true.
Proof.
  induction cs as [|c cs IH]; simpl.
  - split; [discriminate | intros (cell & [] & _)].
  - destruct (stringcell.ContainsPersonalData c) eqn:Hc.
    + split; [intros _; exists c; auto | reflexivity].
    + rewrite IH. split.
      * intros (cell & Hin & Hcell). exists cell. auto.
      * intros (cell & [<-|Hin] & Hcell); [congruence | now exists cell].
Qed.

(** X9. A record built from raw fields is flagged exactly when one of the
    fields contains the marker Your hand. *)
Theorem NewRecord_flagged (records : list string) :
  genericrecord.ContainsPersonalData (NewRecord records) = true
  <-> exists field : string, In field records /\ occurs_in "Your hand" field.
Proof.
  unfold genericrecord.ContainsPersonalData.
  rewrite ContainsPersonalData_loop_In, NewRecord_cells. split.
  - intros (cell & Hin & Hcell). apply in_map_iff in Hin as (field & <- & Hin).
    exists field. split; [exact Hin | now apply stringcell_flag_occurs].
  - intros (field & Hin & Hocc). exists (stringcell field). split.
    + now apply in_map.
    + now apply stringcell_flag_occurs.
Qed.






(** ** The command from end to end *)

Lemma log_lines_frame (lines : list string) (w : World) :
  files (log_lines lines w) = files w
  /\ denied (log_lines lines w) = denied w
  /\ stdout (log_lines lines w) = stdout w ++ lines.
Proof.
  revert w; induction lines as [|l lines IH]; intros w; simpl.
  - now rewrite app_nil_r.
  - destruct (IH (log_line l w)) as (Hf & Hd & Hs). rewrite Hf, Hd, Hs. simpl.
    now rewrite <- app_assoc.
Qed.

Lemma Action_with_error (io : RecordIO) (filename output : string)
    (records : list genericrecord) (e : error) (w w1 : World) :
  ReadCSV io filename (log_line ("anonimizing file '" +:+ filename +:+ "'") w)
  = (Done (records, Some e), w1) ->
  Action_with io filename output w
  = (Done (Some e), log_line (Sprintf_d (length records)) w1).
Proof.
  intros Hread. unfold Action_with, bind, Log. now rewrite Hread.
Qed.

Lemma Action_with_panic (io : RecordIO) (filename output msg : string) (w w1 : World) :
  ReadCSV io filename (log_line ("anonimizing file '" +:+ filename +:+ "'") w)
  = (Panic msg, w1) ->
  Action_with io filename output w = (Panic msg, w1).
Proof.
  intros Hread. unfold Action_with, bind, Log. now rewrite Hread.
Qed.

(** X12. When the input file is missing, or the reader rejects its
    content, the action returns that error after printing the sizes it saw;
    it does not reach the sanitizer and leaves every file as it was. *)
Theorem Action_read_error `{Library} (filename output : string) (w : World) :
  (files w !! filename = None ->
   Action filename output w
   = (Done (Some ("open " +:+ filename +:+ ": no such file or directory")),
      log_lines ["anonimizing file '" +:+ filename +:+ "'"; "0"; "0"] w)
   /\ files (snd (Action filename output w)) = files w)
  /\ (forall (data : string) (rows : list (list string)) (e : error),
      files w !! filename = Some data ->
      csv_ReadAll data = (rows, Some e) ->
      Action filename output w
      = (Done (Some e),
         log_lines ["anonimizing file '" +:+ filename +:+ "'";
                    Sprintf_d (String.length data); Sprintf_d (length rows); "0"] w)
      /\ files (snd (Action filename output w)) = files w).
Proof.
  split.
  - intros Hf.
    pose proof (ReadCSV_unreadable filename
                  (log_line ("anonimizing file '" +:+ filename +:+ "'") w) Hf) as Hread.
    unfold Action.
    rewrite (Action_with_error NewRecordIO filename output _ _ w _ Hread).
    split; reflexivity.
  - intros data rows e Hf Hp.
    pose proof (ReadCSV_readable filename data
                  (log_line ("anonimizing file '" +:+ filename +:+ "'") w) Hf) as Hread.
    cbv zeta in Hread. rewrite Hp in Hread.
    unfold Action.
    rewrite (Action_with_error NewRecordIO filename output _ _ w _ Hread).
    split; reflexivity.
Qed.

Lemma Action_read_error_witness :
  fst (@Action fragment.library "missing.csv" "out.csv" sample_world)
  = Done (Some "open missing.csv: no such file or directory")
  /\ fst (@Action fragment.library "ragged.csv" "out.csv" sample_world)
     = Done (Some "record on line 2: wrong number of fields")
  /\ files (snd (@Action fragment.library "ragged.csv" "out.csv" sample_world))
     = files sample_world.
Proof.
  destruct (Action_read_error (H := fragment.library) "missing.csv" "out.csv"
              sample_world) as [Hmissing _].
  destruct (Action_read_error (H := fragment.library) "ragged.csv" "out.csv"
              sample_world) as [_ Hbad].
  destruct Hmissing as [-> _]; [vm_compute; reflexivity|].
  destruct (Hbad _ [] "record on line 2: wrong number of fields" eq_refl) as [Hrun Hfiles];
    [vm_compute; reflexivity|].
  split; [reflexivity|]. split; [now rewrite Hrun | exact Hfiles].
Defined.

(** X13. When the input file parses to no row at all, the action panics in
    the reader; nothing is written. *)
Theorem Action_no_rows_panics `{Library} (filename output data : string) (w : World) :
  files w !! filename = Some data ->
  csv_ReadAll data = ([], None) ->
  Action filename output w
  = (Panic "runtime error: slice bounds out of range [1:0]",
     log_lines ["anonimizing file '" +:+ filename +:+ "'";
                Sprintf_d (String.length data); "0"] w)
  /\ files (snd (Action filename output w)) = files w.
Proof.
  intros Hf Hp.
  pose proof (ReadCSV_readable filename data
                (log_line ("anonimizing file '" +:+ filename +:+ "'") w) Hf) as Hread.
  cbv zeta in Hread. rewrite Hp in Hread.
  unfold Action.
  rewrite (Action_with_panic NewRecordIO filename output _ w _ Hread).
  split; reflexivity.
Qed.

Lemma Action_no_rows_panics_witness :
  fst (@Action fragment.library "empty.csv" "out.csv" sample_world)
  = Panic "runtime error: slice bounds out of range [1:0]".
Proof.
  destruct (Action_no_rows_panics (H := fragment.library) "empty.csv" "out.csv" ""
              sample_world) as [-> _];
    [vm_compute; reflexivity | vm_compute; reflexivity | reflexivity].
Defined.

Lemma WriteCSV_buffer_incomplete (records : list genericrecord) :
  records <> [] ->
  bufio.wr (csv.w (WriteCSV_buffer records)) <> csv_rows records.
Proof.
  intros Hne Hall. pose proof (WriteCSV_buffer_buffered records Hne) as Hbuf.
  destruct (WriteCSV_buffer_stream records) as [Hs _]. unfold stream in Hs.
  apply (f_equal String.length) in Hs. rewrite length_append, Hall in Hs.
  destruct (bufio.buf (csv.w (WriteCSV_buffer records))); [contradiction|].
  simpl in Hs. lia.
Qed.

Lemma WriteCSV_buffer_small (records : list genericrecord) :
  String.length (csv_rows records) <= bufio.defaultBufSize ->
  bufio.wr (csv.w (WriteCSV_buffer records)) = "".
Proof.
  intros Hsmall. destruct (WriteCSV_buffer_stream records) as [Hs [Hwr|Hlong]].
  - exact Hwr.
  - rewrite Hs in Hlong. lia.
Qed.

(** The run of the action on a file with a header and at least one more
    row, up to the call of [WriteFile]. *)
Lemma Action_reaches_writer `{Library} (filename output data : string)
    (header R : list string) (Rs : list (list string)) (w : World) :
  files w !! filename = Some data ->
  csv_ReadAll data = (header :: R :: Rs, None) ->
  Action filename output w
  = ioutil.WriteFile output
      (bufio.wr (csv.w (WriteCSV_buffer
                          (without_personal_data (map NewRecord (R :: Rs)))))) 775
      (log_lines
         (["anonimizing file '" +:+ filename +:+ "'";
           Sprintf_d (String.length data);
           Sprintf_d (length (header :: R :: Rs));
           Sprintf_d (length (R :: Rs))]
          ++ discard_notices (map NewRecord (R :: Rs))) w).
Proof.
  intros Hf Hp.
  pose proof (ReadCSV_readable filename data
                (log_line ("anonimizing file '" +:+ filename +:+ "'") w) Hf) as Hread.
  cbv zeta in Hread. rewrite Hp in Hread.
  unfold Action.
  rewrite (Action_with_records NewRecordIO filename output _ w _ Hread)
    by discriminate.
  unfold sanitizer, bind. rewrite sanitize_loop_filter.
  rewrite length_map. reflexivity.
Qed.

(** X14. When the input has a header and at least one more row and the
    output path can be opened, the action returns success and changes one
    file only: the output is created or truncated (the input itself, when
    both paths are the same) and receives a beginning of the rows of the
    records without personal data.  That beginning is never all of the rows
    when a record is kept, and it is empty when the rows take at most
    [defaultBufSize] bytes, in particular when every record was discarded. *)
Theorem Action_writes_output `{Library} (filename output data : string)
    (header R : list string) (Rs : list (list string)) (w : World) :
  files w !! filename = Some data ->
  csv_ReadAll data = (header :: R :: Rs, None) ->
  output ∉ denied w ->
  let kept := without_personal_data (map NewRecord (R :: Rs)) in
  exists written unflushed : string,
    fst (Action filename output w) = Done None
    /\ files (snd (Action filename output w)) = <[output := written]> (files w)
    /\ written +:+ unflushed = csv_rows kept
    /\ (kept <> [] -> written <> csv_rows kept)
    /\ (String.length (csv_rows kept) <= bufio.defaultBufSize -> written = "").
Proof.
  intros Hf Hp Hok kept.
  exists (bufio.wr (csv.w (WriteCSV_buffer kept))),
         (bufio.buf (csv.w (WriteCSV_buffer kept))).
  rewrite (Action_reaches_writer filename output data header R Rs w Hf Hp).
  fold kept. unfold ioutil.WriteFile.
  match goal with |- context [log_lines ?l w] =>
    destruct (log_lines_frame l w) as (Hfiles & Hdenied & _) end.
  rewrite Hdenied. destruct (decide (output ∈ denied w)); [contradiction|].
  unfold with_file. cbn [fst snd files]. rewrite Hfiles.
  split; [reflexivity|]. split; [reflexivity|].
  split; [apply WriteCSV_buffer_stream|].
  split; [apply WriteCSV_buffer_incomplete | apply WriteCSV_buffer_small].
Qed.

Lemma Action_writes_output_witness :
  fst (@Action fragment.library "in.csv" "out.csv" sample_world) = Done None
  /\ files (snd (@Action fragment.library "in.csv" "out.csv" sample_world))
     = <["out.csv" := ""]> (files sample_world).
Proof.
  destruct (Action_writes_output (H := fragment.library) "in.csv" "out.csv"
              ("h1,h2" +:+ fragment.newline +:+ "a,b" +:+ fragment.newline
               +:+ "c,d" +:+ fragment.newline)
              ["h1"; "h2"] ["a"; "b"] [["c"; "d"]] sample_world)
    as (written & unflushed & Hrun & Hfiles & _ & _ & Hsmall).
  - vm_compute. reflexivity.
  - vm_compute. reflexivity.
  - vm_compute. set_solver.
  - rewrite Hsmall in Hfiles by (vm_compute; lia). split; [exact Hrun | exact Hfiles].
Defined.

(** X15. When the output path cannot be opened for writing, the action
    returns the error of [WriteFile] and leaves every file as it was. *)
Theorem Action_unwritable_output `{Library} (filename output data : string)
    (header R : list string) (Rs : list (list string)) (w : World) :
  files w !! filename = Some data ->
  csv_ReadAll data = (header :: R :: Rs, None) ->
  output ∈ denied w ->
  fst (Action filename output w)
  = Done (Some ("open " +:+ output +:+ ": permission denied"))
  /\ files (snd (Action filename output w)) = files w.
Proof.
  intros Hf Hp Hdeny.
  rewrite (Action_reaches_writer filename output data header R Rs w Hf Hp).
  unfold ioutil.WriteFile.
  match goal with |- context [log_lines ?l w] =>
    destruct (log_lines_frame l w) as (Hfiles & Hdenied & _) end.
  rewrite Hdenied. destruct (decide (output ∈ denied w)); [|contradiction].
  cbn [fst snd]. now rewrite Hfiles.
Qed.

Lemma Action_unwritable_output_witness :
  fst (@Action fragment.library "in.csv" "/proc/out.csv"
         {| files := files sample_world; denied := {[ "/proc/out.csv" ]}; stdout := [] |})
  = Done (Some "open /proc/out.csv: permission denied").
Proof.
  apply (Action_unwritable_output (H := fragment.library) "in.csv" "/proc/out.csv"
           ("h1,h2" +:+ fragment.newline +:+ "a,b" +:+ fragment.newline
            +:+ "c,d" +:+ fragment.newline)
           ["h1"; "h2"] ["a"; "b"] [["c"; "d"]]).
  - vm_compute. reflexivity.
  - vm_compute. reflexivity.
  - simpl. set_solver.
Defined.

(** ** The writer and the store *)

(** [WriteCSV] never panics and touches nothing but the target path:
    standard output, the other files and the set of unwritable paths are
    as before; when the target cannot be opened the world is unchanged and
    the error is returned. *)
Lemma WriteCSV_frame (filename : string) (records : list genericrecord) (w : World) :
  (exists e : option error, fst (recordio.WriteCSV filename records w) = Done e)
  /\ stdout (snd (recordio.WriteCSV filename records w)) = stdout w
  /\ denied (snd (recordio.WriteCSV filename records w)) = denied w
  /\ (forall other : string,
        other <> filename ->
        files (snd (recordio.WriteCSV filename records w)) !! other = files w !! other)
  /\ (filename ∈ denied w ->
      recordio.WriteCSV filename records w
      = (Done (Some ("open " +:+ filename +:+ ": permission denied")), w)).
Proof.
  unfold recordio.WriteCSV, ioutil.WriteFile.
  destruct (decide (filename ∈ denied w)) as [Hdeny|Hok]; cbn [fst snd].
  - split; [now eexists|]. repeat split; reflexivity.
  - split; [now eexists|]. split; [reflexivity|]. split; [reflexivity|]. split.
    + intros other Hne. unfold with_file. cbn [files].
      now rewrite lookup_insert_ne.
    + contradiction.
Qed.

(** X16. The store does not read back what it wrote: after [WriteCSV] of
    rows that take at most [defaultBufSize] bytes the file is empty, and
    with a reader that finds no row in empty content, [ReadCSV] of that file
    panics. *)
Theorem WriteCSV_then_ReadCSV_panics `{Library} (filename : string)
    (records : list genericrecord) (w : World) :
  csv_ReadAll "" = ([], None) ->
  filename ∉ denied w ->
  String.length (csv_rows records) <= bufio.defaultBufSize ->
  fst (recordio.ReadCSV filename (snd (recordio.WriteCSV filename records w)))
  = Panic "runtime error: slice bounds out of range [1:0]".
Proof.
  intros Hempty Hok Hsmall.
  rewrite (WriteCSV_unfold filename records w Hok).
  rewrite (WriteCSV_buffer_small records Hsmall). cbn [snd].
  rewrite (ReadCSV_readable filename "").
  - cbv zeta. now rewrite Hempty.
  - unfold with_file. cbn [files]. apply lookup_insert_eq.
Qed.

Lemma WriteCSV_then_ReadCSV_panics_witness :
  fst (@recordio.ReadCSV fragment.library "out.csv"
         (snd (recordio.WriteCSV "out.csv"
                 [NewRecord ["a"; "b"]; NewRecord ["c"; "d"]] old_world)))
  = Panic "runtime error: slice bounds out of range [1:0]".
Proof.
  apply (WriteCSV_then_ReadCSV_panics (H := fragment.library) "out.csv"
           [NewRecord ["a"; "b"]; NewRecord ["c"; "d"]] old_world).
  - reflexivity.
  - vm_compute. set_solver.
  - vm_compute. lia.
Defined.
